(** * Process mining pipeline (process_mining.py): model and verification

    The script reads an event log (case id, activity name, timestamp),
    normalises it ([prepare_event_log]), computes KPIs ([compute_kpis]),
    discovers a directly-follows graph ([discover_dfg]) and assembles the edge
    table ([dfg_to_edges_df]).

    Modelling conventions.
    - A DataFrame is the list of its rows in index order; the three required
      columns are record fields, so a column can only be absent where the
      code builds a frame from a list of dicts ([pd_DataFrame]).
    - Python ints are [Z]; a pandas timestamp is the [Z] number of nanoseconds
      since the epoch and [None] stands for NaT.
    - Python floats are [pyfloat]: NaN or an exact rational.  IEEE rounding is
      not modelled; every statement about a float below is a statement about
      the exact value.
    - A raised exception is the [Raise] branch of [result]. *)

From Stdlib Require Import String Ascii DecimalString.
From Stdlib Require Import List Bool Arith ZArith QArith Qround.
From Stdlib Require Import Lia Lqa Permutation Sorted OrderedTypeEx.
Import ListNotations.

Set Implicit Arguments.

(** ** Python values and exceptions *)

Module Py.

Inductive exn : Type :=
| ValueError_invalid_timestamps (bad : Z)
| ValueError_column_missing (c : string)
| KeyError (key : string)
| ZeroDivisionError.

Inductive result (A : Type) : Type :=
| Ok (a : A)
| Raise (e : exn).

Arguments Ok {A} a.
Arguments Raise {A} e.

Definition bind {A B : Type} (m : result A) (k : A -> result B) : result B :=
  match m with
  | Ok a => k a
  | Raise e => Raise e
  end.

Definition raises {A : Type} (m : result A) : Prop :=
  exists e, m = Raise e.

(** A float: NaN or a finite value. *)
Inductive pyfloat : Type :=
| NaN
| Fin (q : Q).

(** The values stored under the float-valued keys of the KPI dict. *)
Inductive pyval : Type :=
| PyNone
| PyFloat (f : pyfloat).

Definition absent (v : pyval) : Prop := v = PyNone.

Definition is_nan (v : pyval) : Prop := v = PyFloat NaN.

(** [n / m] on ints. *)
Definition truediv (n m : Z) : result pyfloat :=
  if (m =? 0)%Z then Raise ZeroDivisionError
  else Ok (Fin (inject_Z n / inject_Z m)).

(** Truthiness of an int. *)
Definition truthy (n : Z) : bool := negb (n =? 0)%Z.

End Py.

Import Py.

Notation "x <- m ;; k" := (bind m (fun x => k))
  (at level 61, m at next level, right associativity).

(** ** Stable sorting

    [DataFrame.sort_values] on several keys is a stable lexicographic sort
    (the [kind] argument only applies to a single key); on one key the model
    keeps equal keys in input order as well.  The stable sort of a list under
    a total preorder is unique, so it is written as an insertion sort. *)

Fixpoint insert_by {A : Type} (leb : A -> A -> bool) (x : A) (l : list A)
  : list A :=
  match l with
  | [] => [x]
  | y :: t => if leb x y then x :: y :: t else y :: insert_by leb x t
  end.

Definition stable_sort {A : Type} (leb : A -> A -> bool) (l : list A)
  : list A :=
  fold_right (insert_by leb) [] l.

(** ** Frames *)

(** A row of the raw CSV: the three required columns and whatever else the
    file carries (column name, cell). *)
Record RawRow : Type := mkRawRow {
  case_id : string;
  activity_name : string;
  timestamp : string;
  other_columns : list (string * string)
}.

(** A row of the three-column frame; [T] is the type of the timestamp cell:
    [string] as read, [option Z] after [pd.to_datetime], [Z] in the log. *)
Record Row (T : Type) : Type := mkRow {
  case_concept_name : string;
  concept_name : string;
  time_timestamp : T
}.

Definition Event : Type := Row Z.
Definition EventLog : Type := list Event.

(** [df_raw.loc[:, ["case_id", "activity_name", "timestamp"]]] *)
Definition loc_required (r : RawRow) : Row string :=
  mkRow (case_id r) (activity_name r) (timestamp r).

Definition isna {T : Type} (c : option T) : bool :=
  match c with
  | None => true
  | Some _ => false
  end.

(** Timestamps compare with NaT last. *)
Definition ts_leb (a b : option Z) : bool :=
  match a, b with
  | Some x, Some y => (x <=? y)%Z
  | _, None => true
  | None, Some _ => false
  end.

(** Lexicographic order on (case, timestamp). *)
Definition key_leb {T : Type} (tleb : T -> T -> bool) (r1 r2 : Row T) : bool :=
  match String.compare (case_concept_name r1) (case_concept_name r2) with
  | Lt => true
  | Eq => tleb (time_timestamp r1) (time_timestamp r2)
  | Gt => false
  end.

Definition event_leb : Event -> Event -> bool := key_leb Z.leb.

Definition dropna_rows (df : list (Row (option Z))) : list Event :=
  flat_map (fun r =>
    match time_timestamp r with
    | Some t => [mkRow (case_concept_name r) (concept_name r) t]
    | None => []
    end) df.

Definition PM4PY_COLS : list string :=
  ["case:concept:name"; "concept:name"; "time:timestamp"]%string.

(** A formatted log frame: its column labels and its rows. *)
Record LogFrame : Type := mkLogFrame {
  log_columns : list string;
  log_rows : EventLog
}.

(** [pm4py.format_dataframe] (third-party, not part of the repository), on
    a frame whose labels are present and are kept as they are: rows with a
    missing timestamp are dropped ([dropna_rows]), an index column is added
    and the frame is sorted by (case, timestamp, index), the index being the
    position before that sort.  The library does more than this to the label
    columns: it drops the rows whose case id or activity is missing and
    converts a label column whose values parse as dates, so that different
    labels can become one.  Neither is modelled; the statements on
    [prepare_event_log] below hold whatever the call does to the rows, and
    the statements on row order are about the frame given to it
    ([sorted_frame]). *)
Definition format_dataframe (df : list (Row (option Z))) : LogFrame :=
  mkLogFrame (PM4PY_COLS ++ ["@@index"; "@@case_index"]%string)
             (stable_sort event_leb (dropna_rows df)).

(** The loop [for c in PM4PY_COLS: if c not in df.columns: raise ...]. *)
Fixpoint check_columns (cs cols : list string) : result unit :=
  match cs with
  | [] => Ok tt
  | c :: t =>
      if existsb (String.eqb c) cols then check_columns t cols
      else Raise (ValueError_column_missing c)
  end.

Definition parse_column (to_datetime : string -> option Z)
  (df : list (Row string)) : list (Row (option Z)) :=
  map (fun r => mkRow (case_concept_name r) (concept_name r)
                      (to_datetime (time_timestamp r))) df.

Definition count_na (df : list (Row (option Z))) : Z :=
  Z.of_nat (length (filter (fun r => isna (time_timestamp r)) df)).

(** [prepare_event_log].  [to_datetime] is what
    [pd.to_datetime(..., errors="coerce")] makes of each cell of the
    timestamp column of the table at hand: [None] is NaT.  pandas infers the
    format from the column, so two tables with different timestamp columns
    need not share one [to_datetime].  Renaming the three columns changes
    labels only; the record fields already carry the new names. *)
Definition prepare_event_log (to_datetime : string -> option Z)
  (df_raw : list RawRow) : result EventLog :=
  let df := map loc_required df_raw in
  let df := parse_column to_datetime df in
  if existsb (fun r => isna (time_timestamp r)) df then
    Raise (ValueError_invalid_timestamps (count_na df))
  else
    let df := stable_sort (key_leb ts_leb) df in
    let df := format_dataframe df in
    _ <- check_columns PM4PY_COLS (log_columns df) ;;
    Ok (log_rows df).

(** ** Column helpers used by [compute_kpis] *)

(** [Series.unique]: distinct values in order of first appearance. *)
Fixpoint unique (l : list string) : list string :=
  match l with
  | [] => []
  | x :: t => x :: remove string_dec x (unique t)
  end.

(** [Series.nunique] *)
Definition nunique (l : list string) : Z := Z.of_nat (length (unique l)).

Definition count_desc (p q : string * Z) : bool := (snd q <=? snd p)%Z.

(** [Series.value_counts().to_dict()]: one entry per distinct value with its
    number of occurrences, most frequent first; values with equal counts are
    kept in order of first appearance. *)
Definition value_counts (l : list string) : list (string * Z) :=
  stable_sort count_desc
    (map (fun a => (a, Z.of_nat (count_occ string_dec l a))) (unique l)).

(** The rows of one group of [df.groupby("case:concept:name")]. *)
Definition group_rows (df : EventLog) (c : string) : list Event :=
  filter (fun e => String.eqb (case_concept_name e) c) df.

(** The group keys of a groupby come out sorted. *)
Definition group_keys (df : EventLog) : list string :=
  stable_sort String.leb (unique (map (@case_concept_name Z) df)).

(** Column minimum and maximum of timestamps; NaT on an empty column. *)
Definition ts_min (l : list Z) : option Z :=
  match l with
  | [] => None
  | x :: t => Some (fold_left Z.min t x)
  end.

Definition ts_max (l : list Z) : option Z :=
  match l with
  | [] => None
  | x :: t => Some (fold_left Z.max t x)
  end.

(** One row of [case_span]: the group key with its [start] and [end]. *)
Record SpanRow : Type := mkSpan {
  span_case : string;
  span_start : option Z;
  span_end : option Z
}.

(** [g.agg(start="min", end="max")] *)
Definition case_span (df : EventLog) : list SpanRow :=
  map (fun c =>
         let ts := map (@time_timestamp Z) (group_rows df c) in
         mkSpan c (ts_min ts) (ts_max ts))
      (group_keys df).

(** Difference of two timestamps, a timedelta in nanoseconds (NaT if either
    side is NaT). *)
Definition td_sub (e s : option Z) : option Z :=
  match e, s with
  | Some a, Some b => Some (a - b)%Z
  | _, _ => None
  end.

(** [.dt.total_seconds()] *)
Definition total_seconds (td : option Z) : pyfloat :=
  match td with
  | Some ns => Fin (inject_Z ns / inject_Z 1000000000)
  | None => NaN
  end.

Definition fdiv (x : pyfloat) (d : Q) : pyfloat :=
  match x with
  | Fin q => Fin (q / d)
  | NaN => NaN
  end.

(** Nanoseconds to hours: [total_seconds() / 3600.0]. *)
Definition hours_of_ns (ns : Z) : Q :=
  inject_Z ns / inject_Z 1000000000 / inject_Z 3600.

(** [case_span["throughput_hours"]], one value per group. *)
Definition case_throughput_hours (df : EventLog) : list (string * pyfloat) :=
  map (fun r =>
         (span_case r,
          fdiv (total_seconds (td_sub (span_end r) (span_start r)))
               (inject_Z 3600)))
      (case_span df).

(** ** Series reductions (NaN cells are skipped) *)

Definition series_dropna (s : list pyfloat) : list Q :=
  flat_map (fun x => match x with Fin q => [q] | NaN => [] end) s.

Definition Qsum (l : list Q) : Q := fold_right Qplus 0 l.

Definition Qmean (l : list Q) : Q := Qsum l / inject_Z (Z.of_nat (length l)).

Definition Qmin_b (a b : Q) : Q := if Qle_bool a b then a else b.
Definition Qmax_b (a b : Q) : Q := if Qle_bool a b then b else a.

Definition series_mean (s : list pyfloat) : pyfloat :=
  match series_dropna s with
  | [] => NaN
  | xs => Fin (Qmean xs)
  end.

Definition series_min (s : list pyfloat) : pyfloat :=
  match series_dropna s with
  | [] => NaN
  | x :: t => Fin (fold_left Qmin_b t x)
  end.

Definition series_max (s : list pyfloat) : pyfloat :=
  match series_dropna s with
  | [] => NaN
  | x :: t => Fin (fold_left Qmax_b t x)
  end.

(** The median of a non-empty list: the mean of the middle element (odd
    length) or of the two middle elements (even length) of the sorted
    values. *)
Definition median_of (xs : list Q) : Q :=
  let a := stable_sort Qle_bool xs in
  let n := length a in
  let index := (n / 2)%nat in
  if Nat.odd n then Qmean [nth index a 0]
  else Qmean [nth (index - 1) a 0; nth index a 0].

(** [Series.median()] *)
Definition series_median (s : list pyfloat) : pyfloat :=
  match series_dropna s with
  | [] => NaN
  | xs => Fin (median_of xs)
  end.

(** The interpolation step of the percentile routine. *)
Definition lerp (a b t : Q) : Q :=
  if Qle_bool (1 # 2) t then b - (b - a) * (1 - t) else a + (b - a) * t.

(** The percentile routine behind [Series.quantile] with the default
    [interpolation="linear"], on a non-empty list: the virtual index is
    [(n - 1) * q]; the neighbours are its floor and the next index, both taken
    to be the last position when the virtual index reaches it. *)
Definition percentile_linear (q : Q) (xs : list Q) : Q :=
  let a := stable_sort Qle_bool xs in
  let n := Z.of_nat (length a) in
  let virtual := inject_Z (n - 1) * q in
  let lo := Qfloor virtual in
  let above := Qle_bool (inject_Z (n - 1)) virtual in
  let previous := if above then (n - 1)%Z else lo in
  let next := if above then (n - 1)%Z else (lo + 1)%Z in
  let gamma := virtual - inject_Z lo in
  lerp (nth (Z.to_nat previous) a 0) (nth (Z.to_nat next) a 0) gamma.

(** [Series.quantile(q)] *)
Definition series_quantile (q : Q) (s : list pyfloat) : pyfloat :=
  match series_dropna s with
  | [] => NaN
  | xs => Fin (percentile_linear q xs)
  end.

(** ** [compute_kpis] *)

Record Throughput : Type := mkThroughput {
  th_mean : pyval;
  th_median : pyval;
  th_min : pyval;
  th_max : pyval;
  th_p95 : pyval
}.

(** The returned dict.  [first_event] and [last_event] are the two entries of
    ["time_window"], kept as timestamps ([None] is NaT) instead of their
    [str] rendering. *)
Record KPIs : Type := mkKPIs {
  cases : Z;
  events : Z;
  unique_activities : Z;
  avg_events_per_case : pyval;
  first_event : option Z;
  last_event : option Z;
  throughput_hours : Throughput;
  activity_frequency_top10 : list (string * Z)
}.

(** The local [activity_freq] of [compute_kpis]. *)
Definition activity_freq (df : EventLog) : list (string * Z) :=
  value_counts (map (@concept_name Z) df).

Definition compute_kpis (df : EventLog) : result KPIs :=
  let n_cases := nunique (map (@case_concept_name Z) df) in
  let n_events := Z.of_nat (length df) in
  let n_activities := nunique (map (@concept_name Z) df) in
  let freq := activity_freq df in
  let th := map snd (case_throughput_hours df) in
  avg <- (if truthy n_cases
          then x <- truediv n_events n_cases ;; Ok (PyFloat x)
          else Ok PyNone) ;;
  Ok (mkKPIs n_cases n_events n_activities avg
        (ts_min (map (@time_timestamp Z) df))
        (ts_max (map (@time_timestamp Z) df))
        (mkThroughput
           (PyFloat (series_mean th))
           (PyFloat (series_median th))
           (PyFloat (series_min th))
           (PyFloat (series_max th))
           (PyFloat (series_quantile (95 # 100) th)))
        (firstn 10 freq)).

(** ** Directly-follows graph *)

(** A Python dict used as a counter: entries stay in insertion order. *)
Fixpoint incr {K : Type} (keq : K -> K -> bool) (k : K) (d : list (K * Z))
  : list (K * Z) :=
  match d with
  | [] => [(k, 1%Z)]
  | (k', v) :: t =>
      if keq k k' then (k', (v + 1)%Z) :: t else (k', v) :: incr keq k t
  end.


Definition sum_values {K : Type} (d : list (K * Z)) : Z :=
  fold_right Z.add 0%Z (map snd d).

Definition edge_eqb (p q : string * string) : bool :=
  String.eqb (fst p) (fst q) && String.eqb (snd p) (snd q).

Fixpoint adjacent_pairs (l : list string) : list (string * string) :=
  match l with
  | [] => []
  | a :: t =>
      match t with
      | [] => []
      | b :: _ => (a, b) :: adjacent_pairs t
      end
  end.

(** What [discover_dfg] returns: the edge counter and the two activity
    counters. *)
Record DFG : Type := mkDFG {
  dfg : list ((string * string) * Z);
  start_acts : list (string * Z);
  end_acts : list (string * Z)
}.

(** The activity sequence of every case, cases in order of first appearance. *)
Definition case_sequences (df : EventLog) : list (list string) :=
  map (fun c => map (@concept_name Z) (group_rows df c))
      (unique (map (@case_concept_name Z) df)).

Definition count_edges (d : list ((string * string) * Z))
  (ps : list (string * string)) : list ((string * string) * Z) :=
  fold_left (fun acc p => incr edge_eqb p acc) ps d.

Definition add_case (st : DFG) (acts : list string) : DFG :=
  match acts with
  | [] => st
  | a0 :: _ =>
      mkDFG (count_edges (dfg st) (adjacent_pairs acts))
            (incr String.eqb a0 (start_acts st))
            (incr String.eqb (last acts a0) (end_acts st))
  end.

(** Modelled from the spec: [discover_dfg] only forwards to the third-party
    call [p4.discover_dfg], whose code is not part of the repository.  The
    definition follows section 4.2: the events are partitioned into cases,
    and each case's activity sequence [a0 .. an] increments the edge
    [(a_i, a_i+1)] for every adjacent pair, the start counter of [a0] and the
    end counter of [an]. *)
Definition discover_dfg (df : EventLog) : DFG :=
  fold_left add_case (case_sequences df) (mkDFG [] [] []).

(** ** Edge table *)

Record EdgeRow : Type := mkEdge {
  source : string;
  target : string;
  frequency : Z
}.

(** A frame built from a list of dicts: its columns are the dicts' keys, so
    an empty list gives a frame without columns. *)
Record EdgeFrame : Type := mkFrame {
  columns : list string;
  edge_rows : list EdgeRow
}.

Definition pd_DataFrame (rows : list EdgeRow) : EdgeFrame :=
  match rows with
  | [] => mkFrame [] []
  | _ => mkFrame ["source"; "target"; "frequency"]%string rows
  end.

Definition frequency_desc (r1 r2 : EdgeRow) : bool :=
  (frequency r2 <=? frequency r1)%Z.

(** [.sort_values("frequency", ascending=False)]: a [KeyError] when the frame
    has no such column.  The default sort kind does not promise an order
    among equal keys; the model keeps them in input order. *)
Definition sort_values_frequency (df : EdgeFrame) : result EdgeFrame :=
  if existsb (String.eqb "frequency") (columns df) then
    Ok (mkFrame (columns df) (stable_sort frequency_desc (edge_rows df)))
  else Raise (KeyError "frequency").

Definition dfg_to_edges_df (d : list ((string * string) * Z))
  : result EdgeFrame :=
  let rows := map (fun kv => mkEdge (fst (fst kv)) (snd (fst kv)) (snd kv)) d in
  sort_values_frequency (pd_DataFrame rows).

(** ** [main]

    The data path of [main]: the frame that [load_csv] returns goes through
    [prepare_event_log], [compute_kpis], [discover_dfg] and
    [dfg_to_edges_df], in that order.  Argument parsing, logging, file
    input and output and the viewer are left out. *)

Record Outputs : Type := mkOutputs {
  out_kpis : KPIs;
  out_dfg : DFG;
  out_edges : EdgeFrame
}.

Definition main (to_datetime : string -> option Z) (df_raw : list RawRow)
  : result Outputs :=
  df_log <- prepare_event_log to_datetime df_raw ;;
  kpis <- compute_kpis df_log ;;
  let d := discover_dfg df_log in
  edges_df <- dfg_to_edges_df (dfg d) ;;
  Ok (mkOutputs kpis d edges_df).

(** ** The quantile as the specification words it *)

(** For the sorted list of [N] values the [p]-th percentile sits at position
    [p * (N - 1)]; the result interpolates linearly between the two order
    statistics that bracket the position. *)
Definition spec_percentile (p : Q) (xs : list Q) : Q :=
  let a := stable_sort Qle_bool xs in
  let pos := p * inject_Z (Z.of_nat (length a) - 1) in
  let lo := Qfloor pos in
  let hi := Qceiling pos in
  let x_lo := nth (Z.to_nat lo) a 0 in
  let x_hi := nth (Z.to_nat hi) a 0 in
  x_lo + (pos - inject_Z lo) * (x_hi - x_lo).

(** ** Sample data *)

(** A parser that knows the timestamps of the sample logs (nanoseconds since
    the epoch, UTC) and rejects everything else. *)
Definition sample_to_datetime (s : string) : option Z :=
  if String.eqb s "2024-01-01 09:00:00" then Some 1704099600000000000%Z
  else if String.eqb s "2024-01-01 09:30:00" then Some 1704101400000000000%Z
  else if String.eqb s "2024-01-01 10:00:00" then Some 1704103200000000000%Z
  else if String.eqb s "2024-01-01 11:00:00" then Some 1704106800000000000%Z
  else if String.eqb s "2024-01-01 13:00:00" then Some 1704114000000000000%Z
  else None.

(** The two-case scenario: case A order, ship, close; case B order, close. *)
Definition sample_raw : list RawRow :=
  [ mkRawRow "A" "ship" "2024-01-01 11:00:00" [];
    mkRawRow "B" "order" "2024-01-01 09:00:00" [];
    mkRawRow "A" "order" "2024-01-01 10:00:00" [];
    mkRawRow "A" "close" "2024-01-01 13:00:00" [];
    mkRawRow "B" "close" "2024-01-01 09:30:00" [] ]%string.

(** The log that [prepare_event_log] builds from [sample_raw]. *)
Definition sample_log : EventLog :=
  [ mkRow "A" "order" 1704103200000000000%Z;
    mkRow "A" "ship" 1704106800000000000%Z;
    mkRow "A" "close" 1704114000000000000%Z;
    mkRow "B" "order" 1704099600000000000%Z;
    mkRow "B" "close" 1704101400000000000%Z ]%string.

(** The KPIs of [sample_log], evaluated. *)
Definition sample_kpis : KPIs :=
  Eval vm_compute in
    match compute_kpis sample_log with
    | Ok k => k
    | Raise _ =>
        mkKPIs 0 0 0 PyNone None None
          (mkThroughput PyNone PyNone PyNone PyNone PyNone) []
    end.



(** One case with eleven different activities. *)
Definition eleven_log : EventLog :=
  map (fun p => mkRow "A" (fst p) (snd p))
    [ ("a01", 1); ("a02", 2); ("a03", 3); ("a04", 4); ("a05", 5); ("a06", 6);
      ("a07", 7); ("a08", 8); ("a09", 9); ("a10", 10); ("a11", 11) ]%string%Z.

(** A log whose only case has a single event. *)
Definition single_event_log : EventLog :=
  [ mkRow "A" "order" 1704099600000000000%Z ]%string.

(** ** Vocabulary of the statements *)

(** The rows of the raw table whose timestamp does not parse. *)
Definition unparseable (to_datetime : string -> option Z)
  (df_raw : list RawRow) : list RawRow :=
  filter (fun r => isna (to_datetime (timestamp r))) df_raw.

(** The occurrences in [l] of the keys [ks], added up. *)
Definition sum_counts (l ks : list string) : Z :=
  fold_right Z.add 0%Z (map (fun a => Z.of_nat (count_occ string_dec l a)) ks).

(** The rows that the loop of [dfg_to_edges_df] collects from the dict. *)
Definition dict_rows (d : list ((string * string) * Z)) : list EdgeRow :=
  map (fun kv => mkEdge (fst (fst kv)) (snd (fst kv)) (snd kv)) d.

(** Rows in descending order of frequency. *)
Definition frequency_descending (rows : list EdgeRow) : Prop :=
  StronglySorted (fun a b => (frequency b <= frequency a)%Z) rows.

(** The order of the edge table as the specification states it: descending
    frequency, ties by source name and then by target name. *)
Definition spec_edge_leb (r1 r2 : EdgeRow) : bool :=
  (frequency r2 <? frequency r1)%Z
  || ((frequency r1 =? frequency r2)%Z
      && match String.compare (source r1) (source r2) with
         | Lt => true
         | Eq => String.leb (target r1) (target r2)
         | Gt => false
         end).

Definition spec_edge_order (rows : list EdgeRow) : Prop :=
  StronglySorted (fun a b => spec_edge_leb a b = true) rows.

(** Two discovered edges of equal frequency, the later name first, and a
    log that yields them. *)
Definition tied_dfg : list ((string * string) * Z) :=
  [ (("ship", "close"), 1%Z); (("order", "ship"), 1%Z) ]%string.

Definition tied_dfg_log : EventLog :=
  [ mkRow "A" "ship" 1704099600000000000%Z;
    mkRow "A" "close" 1704103200000000000%Z;
    mkRow "B" "order" 1704099600000000000%Z;
    mkRow "B" "ship" 1704103200000000000%Z ]%string.

(** The sum over the cases of (case length - 1). *)
Definition sum_case_lengths_minus_one (df : EventLog) : Z :=
  fold_right Z.add 0%Z
    (map (fun acts => (Z.of_nat (length acts) - 1)%Z) (case_sequences df)).

(** The throughput of case [c] as [compute_kpis] tabulates it. *)
Definition throughput_of (df : EventLog) (c : string) : option pyfloat :=
  option_map snd
    (find (fun p => String.eqb (fst p) c) (case_throughput_hours df)).

(** The per-case durations that the throughput statistics range over. *)
Definition case_durations (df : EventLog) : list Q :=
  series_dropna (map snd (case_throughput_hours df)).

(** The invariant of an event log: sorted by (case, timestamp). *)
Definition EventLog_sorted (df : EventLog) : Prop :=
  StronglySorted (fun a b => event_leb a b = true) df.

(** ** Effects of the remaining functions

    [load_csv], [export_outputs], [maybe_view_dfg] and the whole of the
    script's [main] touch files, the log and the viewer.  A run is modelled
    as the list of effects it performed together with its outcome; when an
    exception is raised the effects performed before it stay in the list.
    The effects themselves are taken to succeed: an operating-system error
    in [mkdir] or in a write, an error of the viewer, a level name that
    [setup_logging] does not know and an exit of the argument parser are
    not modelled.  The statements below are about the order of the effects
    and about the exceptions that the script's own steps raise. *)

Module IO.

Inductive io_exn : Type :=
| FileNotFoundError (path : string)
| ReadError (msg : string)
| ValueError_missing_columns (missing : list string)
| KeyError_not_in_index (missing : list string)
| TypeError_format
| Core (e : exn).

Inductive effect : Type :=
| BasicConfig (level : string)
| LogInfo (msg : string) (args : list string)
| Mkdir (path : string)
| WriteText (path : string) (content : string)
| ViewDfg (d : DFG).

Inductive outcome (A : Type) : Type :=
| Done (a : A)
| Failed (e : io_exn).

Arguments Done {A} a.
Arguments Failed {A} e.

Definition io (A : Type) : Type := (list effect * outcome A)%type.

Definition ret {A : Type} (a : A) : io A := ([], Done a).

Definition fail {A : Type} (e : io_exn) : io A := ([], Failed e).

Definition emit (e : effect) : io unit := ([e], Done tt).

Definition io_bind {A B : Type} (m : io A) (k : A -> io B) : io B :=
  match snd m with
  | Done a => (fst m ++ fst (k a), snd (k a))
  | Failed e => (fst m, Failed e)
  end.

(** A pure step that may raise. *)
Definition lift_outcome {A : Type} (r : outcome A) : io A := ([], r).

Definition of_result {A : Type} (r : result A) : outcome A :=
  match r with
  | Ok a => Done a
  | Raise e => Failed (Core e)
  end.

Definition trace {A : Type} (m : io A) : list effect := fst m.

Definition outcome_of {A : Type} (m : io A) : outcome A := snd m.

End IO.

Import IO.

Notation "x <~ m ;; k" := (io_bind m (fun x => k))
  (at level 61, m at next level, right associativity).

(** ** [load_csv] *)

(** A frame as [pd.read_csv] returns it: the column labels of the header and
    one list of cells per data row, in column order. *)
Record CsvFrame : Type := mkCsv {
  csv_columns : list string;
  csv_records : list (list string)
}.

(** What a path holds: nothing, something that [pd.read_csv] rejects (a
    directory, an empty file), or a table. *)
Inductive file_state : Type :=
| Missing
| Unreadable (msg : string)
| Table (df : CsvFrame).

Definition REQUIRED_RAW_COLS : list string :=
  ["case_id"; "activity_name"; "timestamp"]%string.

Definition has_column (df : CsvFrame) (c : string) : bool :=
  existsb (String.eqb c) (csv_columns df).

(** [REQUIRED_RAW_COLS - set(df.columns)] *)
Definition missing_columns (df : CsvFrame) : list string :=
  filter (fun c => negb (has_column df c)) REQUIRED_RAW_COLS.

(** [load_csv]; [fs] says what each path holds. *)
Definition load_csv (fs : string -> file_state) (path : string)
  : outcome CsvFrame :=
  match fs path with
  | Missing => Failed (FileNotFoundError path)
  | Unreadable msg => Failed (ReadError msg)
  | Table df =>
      match missing_columns df with
      | [] => Done df
      | missing =>
          Failed (ValueError_missing_columns (stable_sort String.leb missing))
      end
  end.

(** ** From a frame to its rows *)

Fixpoint index_of (c : string) (cols : list string) : option nat :=
  match cols with
  | [] => None
  | x :: t =>
      if String.eqb c x then Some 0%nat
      else option_map S (index_of c t)
  end.

(** The cell of record [rec] under column [c]. *)
Definition cell (cols : list string) (rec : list string) (c : string)
  : string :=
  match index_of c cols with
  | Some i => nth i rec EmptyString
  | None => EmptyString
  end.

Definition is_required (c : string) : bool :=
  existsb (String.eqb c) REQUIRED_RAW_COLS.

(** The rows of a frame that has the three required columns.  A cell is the
    text read from the file; a blank cell, which pandas reads as NaN, is the
    empty string here. *)
Definition frame_rows (df : CsvFrame) : list RawRow :=
  map (fun rec =>
         mkRawRow (cell (csv_columns df) rec "case_id")
                  (cell (csv_columns df) rec "activity_name")
                  (cell (csv_columns df) rec "timestamp")
                  (filter (fun p => negb (is_required (fst p)))
                          (combine (csv_columns df) rec)))
      (csv_records df).

(** [prepare_event_log] on a frame: the selection
    [df_raw.loc[:, ["case_id", "activity_name", "timestamp"]]] raises
    [KeyError] for the labels that are not columns; with all three present
    the rest is [prepare_event_log] on the frame's rows. *)
Definition prepare_event_log_frame (to_datetime : string -> option Z)
  (df_raw : CsvFrame) : outcome EventLog :=
  match missing_columns df_raw with
  | [] => of_result (prepare_event_log to_datetime (frame_rows df_raw))
  | missing => Failed (KeyError_not_in_index missing)
  end.

(** ** [export_outputs], [maybe_view_dfg] and the script's [main] *)

Definition nl : string := String (ascii_of_nat 10) EmptyString.

(** [str] of an int. *)
Definition str_int (z : Z) : string := NilZero.string_of_int (Z.to_int z).

(** [Path(outdir) / name] *)
Definition path_join (dir name : string) : string :=
  (dir ++ "/" ++ name)%string.

(** [edges_df.head(n)] *)
Definition head (n : nat) (df : EdgeFrame) : EdgeFrame :=
  mkFrame (columns df) (firstn n (edge_rows df)).

(** The renderers of the libraries, taken as given: [json.dumps] of the KPI
    dict, [DataFrame.to_csv], [DataFrame.to_markdown], the [.2f] rendering of
    a float and [str] of a timestamp. *)
Record Renderers : Type := mkRenderers {
  json_dumps : KPIs -> string;
  to_csv : EdgeFrame -> string;
  to_markdown : EdgeFrame -> string;
  fmt2f : pyfloat -> string;
  str_timestamp : option Z -> string
}.

(** [f"{v:.2f}"]: a float is rendered, [None] raises [TypeError]. *)
Definition format_2f (R : Renderers) (v : pyval) : io string :=
  match v with
  | PyFloat f => ret (fmt2f R f)
  | PyNone => fail TypeError_format
  end.

(** [export_outputs]: the directory is made, kpis.json and dfg_edges.csv are
    written, then the lines of the summary are built and summary.md is
    written.  The last log line carries the directory as given, not its
    resolved path. *)
Definition export_outputs (R : Renderers) (outdir : string) (kpis : KPIs)
  (edges_df : EdgeFrame) : io unit :=
  _ <~ emit (Mkdir outdir) ;;
  _ <~ emit (WriteText (path_join outdir "kpis.json") (json_dumps R kpis)) ;;
  _ <~ emit (WriteText (path_join outdir "dfg_edges.csv")
                       (to_csv R edges_df)) ;;
  let th := throughput_hours kpis in
  mean <~ format_2f R (th_mean th) ;;
  median <~ format_2f R (th_median th) ;;
  p95 <~ format_2f R (th_p95 th) ;;
  lo <~ format_2f R (th_min th) ;;
  hi <~ format_2f R (th_max th) ;;
  let md :=
    [ "# Process Mapping Summary (DFG)" ++ nl;
      "- Cases: **" ++ str_int (cases kpis) ++ "**";
      "- Events: **" ++ str_int (events kpis) ++ "**";
      "- Unique activities: **" ++ str_int (unique_activities kpis) ++ "**";
      "- Time window: **" ++ str_timestamp R (first_event kpis)
        ++ "** → **" ++ str_timestamp R (last_event kpis) ++ "**";
      nl ++ "## Throughput time (hours)" ++ nl;
      "- Mean: **" ++ mean ++ "** | Median: **" ++ median
        ++ "** | P95: **" ++ p95 ++ "**";
      "- Min: **" ++ lo ++ "** | Max: **" ++ hi ++ "**" ++ nl;
      "## Top 10 DFG transitions" ++ nl;
      to_markdown R (head 10 edges_df) ]%string in
  _ <~ emit (WriteText (path_join outdir "summary.md")
                       (String.concat nl md)) ;;
  emit (LogInfo "Exported outputs to: %s" [outdir]).

Definition maybe_view_dfg (df : EventLog) (no_view : bool) : io unit :=
  if no_view then emit (LogInfo "Skipping DFG viewer (no_view=True)." [])
  else
    let d := discover_dfg df in
    _ <~ emit (ViewDfg d) ;;
    emit (LogInfo "DFG viewer opened." []).

(** The parsed command line of [build_parser]. *)
Record Args : Type := mkArgs {
  arg_input : string;
  arg_outdir : string;
  arg_loglevel : string;
  arg_no_view : bool
}.

(** The script's [main] with its effects; [setup_logging] is the effect
    [BasicConfig] with the level name it was given. *)
Definition main_effects (R : Renderers) (fs : string -> file_state)
  (to_datetime : string -> option Z) (args : Args) : io Z :=
  _ <~ emit (BasicConfig (arg_loglevel args)) ;;
  _ <~ emit (LogInfo "Loading input: %s" [arg_input args]) ;;
  df_raw <~ lift_outcome (load_csv fs (arg_input args)) ;;
  _ <~ emit (LogInfo "Preparing event log for pm4py..." []) ;;
  df_log <~ lift_outcome (prepare_event_log_frame to_datetime df_raw) ;;
  _ <~ emit (LogInfo "Computing KPIs..." []) ;;
  kpis <~ lift_outcome (of_result (compute_kpis df_log)) ;;
  _ <~ emit (LogInfo "Discovering DFG..." []) ;;
  let d := discover_dfg df_log in
  edges_df <~ lift_outcome (of_result (dfg_to_edges_df (dfg d))) ;;
  _ <~ emit (LogInfo "Exporting outputs..." []) ;;
  _ <~ export_outputs R (arg_outdir args) kpis edges_df ;;
  _ <~ maybe_view_dfg df_log (arg_no_view args) ;;
  _ <~ emit (LogInfo "Done." []) ;;
  ret 0%Z.

(** The effects that reach outside the process: directories, files, the
    viewer. *)
Definition is_output (e : effect) : bool :=
  match e with
  | Mkdir _ | WriteText _ _ | ViewDfg _ => true
  | BasicConfig _ | LogInfo _ _ => false
  end.

(** The paths written, in order. *)
Definition written_paths (t : list effect) : list string :=
  flat_map (fun e => match e with WriteText p _ => [p] | _ => [] end) t.

Definition views (t : list effect) : list DFG :=
  flat_map (fun e => match e with ViewDfg d => [d] | _ => [] end) t.

(** ** More sample data *)

Definition sample_csv : CsvFrame :=
  mkCsv [ "user"; "case_id"; "timestamp"; "activity_name" ]%string
    [ [ "u1"; "A"; "2024-01-01 11:00:00"; "ship" ];
      [ "u2"; "B"; "2024-01-01 09:00:00"; "order" ];
      [ "u1"; "A"; "2024-01-01 10:00:00"; "order" ];
      [ "u3"; "A"; "2024-01-01 13:00:00"; "close" ];
      [ "u2"; "B"; "2024-01-01 09:30:00"; "close" ] ]%string.

(** A frame without the timestamp and activity columns. *)
Definition short_csv : CsvFrame :=
  mkCsv [ "case_id"; "user" ]%string [ [ "A"; "u1" ] ]%string.

Definition sample_fs (path : string) : file_state :=
  if String.eqb path "log.csv" then Table sample_csv
  else if String.eqb path "short.csv" then Table short_csv
  else if String.eqb path "empty.csv" then Unreadable "No columns to parse"
  else Missing.

(** Renderers that keep only what the statements look at. *)
Definition sample_renderers : Renderers :=
  mkRenderers (fun k => str_int (events k))
              (fun t => str_int (Z.of_nat (length (edge_rows t))))
              (fun t => str_int (Z.of_nat (length (edge_rows t))))
              (fun f => match f with NaN => "nan" | Fin _ => "num" end)%string
              (fun t => match t with
                        | None => "NaT"
                        | Some z => str_int z
                        end)%string.

Definition sample_args : Args :=
  mkArgs "log.csv" "outputs" "INFO" true.

(** The edge table of [sample_log]. *)
Definition sample_edges : EdgeFrame :=
  mkFrame ["source"; "target"; "frequency"]%string
    (stable_sort frequency_desc (dict_rows (dfg (discover_dfg sample_log)))).

(** Linear interpolation at position [pos] of the sorted list [a]. *)
Definition interpolate_at (a : list Q) (pos : Q) : Q :=
  let lo := Qfloor pos in
  let hi := Qceiling pos in
  nth (Z.to_nat lo) a 0
  + (pos - inject_Z lo) * (nth (Z.to_nat hi) a 0 - nth (Z.to_nat lo) a 0).

(** [df.sort_values(["case:concept:name", "time:timestamp"],
    kind="mergesort")], the sort of line 67, on the frame whose timestamps
    have been parsed. *)
Definition sort_values_case_time (df : list (Row (option Z)))
  : list (Row (option Z)) :=
  stable_sort (key_leb ts_leb) df.

(** The frame that [prepare_event_log] hands to [format_dataframe]. *)
Definition sorted_frame (to_datetime : string -> option Z)
  (df_raw : list RawRow) : list (Row (option Z)) :=
  sort_values_case_time (parse_column to_datetime (map loc_required df_raw)).


(** The sort key of a row. *)
Definition row_key (r : Row (option Z)) : string * option Z :=
  (case_concept_name r, time_timestamp r).


(** The rows of case [c] in a frame. *)
Definition case_rows (df : list (Row (option Z))) (c : string)
  : list (Row (option Z)) :=
  filter (fun r => String.eqb (case_concept_name r) c) df.

(** A frame in the order of the sort key. *)
Definition frame_sorted (df : list (Row (option Z))) : Prop :=
  StronglySorted (fun a b => key_leb ts_leb a b = true) df.


(** * Properties *)

Unset Implicit Arguments.

(** ** The result monad *)

Lemma bind_Ok_inv (A B : Type) (m : result A) (k : A -> result B) (b : B) :
  bind m k = Ok b -> exists a, m = Ok a /\ k a = Ok b.
Proof.
  destruct m as [a|e]; simpl; intros H.
  - exists a; split; [reflexivity | exact H].
  - discriminate H.
Qed.

(** ** The stable sort *)

Section StableSortFacts.

Variable A : Type.
Variable leb : A -> A -> bool.

Local Abbreviation le := (fun x y => leb x y = true).

Lemma insert_by_perm (x : A) (l : list A) :
  Permutation (x :: l) (insert_by leb x l).
Proof.
  induction l as [|y t IH]; simpl.
  - apply Permutation_refl.
  - destruct (leb x y).
    + apply Permutation_refl.
    + eapply perm_trans; [apply perm_swap|].
      apply perm_skip, IH.
Qed.

Lemma stable_sort_perm (l : list A) : Permutation l (stable_sort leb l).
Proof.
  induction l as [|x t IH]; simpl.
  - constructor.
  - eapply perm_trans; [apply perm_skip, IH|].
    apply insert_by_perm.
Qed.

Lemma stable_sort_length (l : list A) :
  length (stable_sort leb l) = length l.
Proof. symmetry. apply Permutation_length, stable_sort_perm. Qed.

Lemma stable_sort_nil_inv (l : list A) : stable_sort leb l = [] -> l = [].
Proof.
  intros H. apply (f_equal (@length A)) in H.
  rewrite stable_sort_length in H.
  destruct l; [reflexivity | discriminate H].
Qed.



Hypothesis leb_total : forall x y, leb x y = true \/ leb y x = true.

Lemma insert_by_sorted (x : A) (l : list A) :
  Sorted le l -> Sorted le (insert_by leb x l).
Proof.
  induction 1 as [|y t Ht IH Hd]; simpl.
  - repeat constructor.
  - destruct (leb x y) eqn:Hxy.
    + constructor; [constructor; assumption | constructor; exact Hxy].
    + constructor; [exact IH|].
      destruct (leb_total x y) as [E|E]; [congruence|].
      destruct t as [|z t']; simpl.
      * constructor; exact E.
      * destruct (leb x z); constructor; [exact E|].
        inversion Hd; assumption.
Qed.

Lemma stable_sort_sorted (l : list A) : Sorted le (stable_sort leb l).
Proof.
  induction l as [|x t IH]; simpl.
  - constructor.
  - apply insert_by_sorted, IH.
Qed.


Hypothesis leb_trans :
  forall x y z, leb x y = true -> leb y z = true -> leb x z = true.

Lemma stable_sort_strongly_sorted (l : list A) :
  StronglySorted le (stable_sort leb l).
Proof.
  apply Sorted_StronglySorted; [|apply stable_sort_sorted].
  intros x y z. apply leb_trans.
Qed.

End StableSortFacts.

Lemma StronglySorted_impl (A : Type) (R S : A -> A -> Prop)
  (HRS : forall x y, R x y -> S x y) (l : list A) :
  StronglySorted R l -> StronglySorted S l.
Proof.
  induction 1 as [|x t Ht IH Hx]; constructor.
  - exact IH.
  - eapply Forall_impl; [|exact Hx]. intros y. apply HRS.
Qed.

(** ** The order on rows *)


Lemma string_compare_lt_trans (a b c : string) :
  String.compare a b = Lt -> String.compare b c = Lt ->
  String.compare a c = Lt.
Proof.
  intros H1 H2. apply String_as_OT.cmp_lt.
  apply String_as_OT.cmp_lt in H1. apply String_as_OT.cmp_lt in H2.
  eapply String_as_OT.lt_trans; eassumption.
Qed.

Section KeyOrder.

Variable T : Type.
Variable tleb : T -> T -> bool.
Hypothesis tleb_total : forall x y, tleb x y = true \/ tleb y x = true.
Hypothesis tleb_trans :
  forall x y z, tleb x y = true -> tleb y z = true -> tleb x z = true.

Lemma key_leb_total (r1 r2 : Row T) :
  key_leb tleb r1 r2 = true \/ key_leb tleb r2 r1 = true.
Proof.
  unfold key_leb.
  rewrite (String.compare_antisym (case_concept_name r1) (case_concept_name r2)).
  destruct (String.compare (case_concept_name r2) (case_concept_name r1));
    simpl; auto.
Qed.

Lemma key_leb_trans (r1 r2 r3 : Row T) :
  key_leb tleb r1 r2 = true -> key_leb tleb r2 r3 = true ->
  key_leb tleb r1 r3 = true.
Proof.
  unfold key_leb.
  destruct (String.compare (case_concept_name r1) (case_concept_name r2))
    eqn:E12; try discriminate;
  destruct (String.compare (case_concept_name r2) (case_concept_name r3))
    eqn:E23; try discriminate; intros H1 H2.
  - apply String_as_OT.cmp_eq in E12. rewrite E12, E23. eauto.
  - apply String_as_OT.cmp_eq in E12. now rewrite E12, E23.
  - apply String_as_OT.cmp_eq in E23. now rewrite <- E23, E12.
  - now rewrite (string_compare_lt_trans _ _ _ E12 E23).
Qed.


End KeyOrder.

Lemma Zleb_total (x y : Z) : (x <=? y)%Z = true \/ (y <=? x)%Z = true.
Proof. rewrite !Z.leb_le. lia. Qed.

Lemma Zleb_trans (x y z : Z) :
  (x <=? y)%Z = true -> (y <=? z)%Z = true -> (x <=? z)%Z = true.
Proof. rewrite !Z.leb_le. lia. Qed.

Lemma event_leb_total (a b : Event) :
  event_leb a b = true \/ event_leb b a = true.
Proof. apply key_leb_total, Zleb_total. Qed.

Lemma event_leb_trans (a b c : Event) :
  event_leb a b = true -> event_leb b c = true -> event_leb a c = true.
Proof. apply key_leb_trans, Zleb_trans. Qed.

(** ** [prepare_event_log] *)

Section PrepareEventLog.

Variable to_datetime : string -> option Z.

Local Abbreviation parsed raw :=
  (parse_column to_datetime (map loc_required raw)).

(** The column check after formatting always passes, which leaves the two
    outcomes of [prepare_event_log]. *)
Lemma prepare_event_log_eq (raw : list RawRow) :
  prepare_event_log to_datetime raw
  = if existsb (fun r => isna (time_timestamp r)) (parsed raw)
    then Raise (ValueError_invalid_timestamps (count_na (parsed raw)))
    else Ok (stable_sort event_leb
               (dropna_rows (stable_sort (key_leb ts_leb) (parsed raw)))).
Proof.
  unfold prepare_event_log.
  destruct (existsb _ (parsed raw)); reflexivity.
Qed.

Lemma parsed_isna_filter (raw : list RawRow) :
  length (filter (fun r => isna (time_timestamp r)) (parsed raw))
  = length (unparseable to_datetime raw).
Proof.
  unfold unparseable, parse_column.
  induction raw as [|r raw IH]; simpl; [reflexivity|].
  destruct (isna (to_datetime (timestamp r))); simpl; now rewrite IH.
Qed.

Lemma parsed_existsb (raw : list RawRow) :
  existsb (fun r => isna (time_timestamp r)) (parsed raw) = true
  <-> exists r, In r raw /\ to_datetime (timestamp r) = None.
Proof.
  rewrite existsb_exists. unfold parse_column. split.
  - intros [x [Hx Hna]]. rewrite map_map in Hx. apply in_map_iff in Hx.
    destruct Hx as [r [<- Hr]]. simpl in Hna. exists r. split; [exact Hr|].
    destruct (to_datetime (timestamp r)); [discriminate Hna | reflexivity].
  - intros [r [Hr Hna]]. rewrite map_map.
    eexists. split; [apply in_map_iff; exists r; split; [reflexivity|exact Hr]|].
    simpl. now rewrite Hna.
Qed.

Lemma unparseable_nil_iff (raw : list RawRow) :
  unparseable to_datetime raw = []
  <-> existsb (fun r => isna (time_timestamp r)) (parsed raw) = false.
Proof.
  unfold unparseable, parse_column. induction raw as [|r raw IH]; simpl.
  - tauto.
  - destruct (isna (to_datetime (timestamp r))); simpl.
    + split; discriminate.
    + exact IH.
Qed.

End PrepareEventLog.

(** C5: construction raises the invalid-timestamp error, carrying the exact
    number of unparseable rows, if and only if some record's timestamp does
    not parse; the error is the whole result (no log is returned), and when
    every timestamp parses construction succeeds. *)
Theorem prepare_event_log_parse_error
  (to_datetime : string -> option Z) (raw : list RawRow) :
  let bad := Z.of_nat (length (unparseable to_datetime raw)) in
  ((exists n, prepare_event_log to_datetime raw
              = Raise (ValueError_invalid_timestamps n))
   <-> (exists r, In r raw /\ to_datetime (timestamp r) = None))
  /\ (forall e, prepare_event_log to_datetime raw = Raise e ->
                e = ValueError_invalid_timestamps bad /\ (0 < bad)%Z)
  /\ ((forall r, In r raw -> to_datetime (timestamp r) <> None) ->
      exists log, prepare_event_log to_datetime raw = Ok log).
Proof.
  intros bad.
  assert (Hraise : forall e, prepare_event_log to_datetime raw = Raise e ->
            e = ValueError_invalid_timestamps bad /\ (0 < bad)%Z).
  { intros e. rewrite prepare_event_log_eq.
    destruct (existsb _ (parse_column to_datetime (map loc_required raw)))
      eqn:E; [|discriminate].
    intros H. injection H as <-. unfold count_na.
    rewrite parsed_isna_filter. split; [reflexivity|].
    subst bad. destruct (unparseable to_datetime raw) eqn:U; simpl; [|lia].
    apply unparseable_nil_iff in U. congruence. }
  split; [|split].
  - split.
    + intros [n Hn]. apply parsed_existsb.
      rewrite prepare_event_log_eq in Hn.
      destruct (existsb _ _); [reflexivity | discriminate Hn].
    + intros Hex. apply parsed_existsb in Hex.
      eexists. rewrite prepare_event_log_eq, Hex. reflexivity.
  - exact Hraise.
  - intros Hall. rewrite prepare_event_log_eq.
    destruct (existsb _ _) eqn:E; [|eexists; reflexivity].
    apply parsed_existsb in E. destruct E as [r [Hr Hna]].
    now destruct (Hall r Hr).
Qed.

(** The spec's scenario: one row with an unparseable timestamp aborts the
    construction with count 1. *)
Example prepare_event_log_one_bad_row :
  prepare_event_log sample_to_datetime
    (mkRawRow "A" "order" "yesterday" [] :: sample_raw)
  = Raise (ValueError_invalid_timestamps 1).
Proof. reflexivity. Qed.


(** ** The sort of line 67 *)

Lemma ts_leb_total (a b : option Z) : ts_leb a b = true \/ ts_leb b a = true.
Proof.
  destruct a as [x|], b as [y|]; simpl; auto. rewrite !Z.leb_le. lia.
Qed.

Lemma ts_leb_trans (a b c : option Z) :
  ts_leb a b = true -> ts_leb b c = true -> ts_leb a c = true.
Proof.
  destruct a as [x|], b as [y|], c as [z|]; simpl; try discriminate; auto.
  rewrite !Z.leb_le. lia.
Qed.

Lemma ts_leb_antisym (a b : option Z) :
  ts_leb a b = true -> ts_leb b a = true -> a = b.
Proof.
  destruct a as [x|], b as [y|]; simpl; try discriminate; auto.
  rewrite !Z.leb_le. intros H1 H2. f_equal. lia.
Qed.


Lemma row_leb_total (a b : Row (option Z)) :
  key_leb ts_leb a b = true \/ key_leb ts_leb b a = true.
Proof. apply key_leb_total, ts_leb_total. Qed.

Lemma row_leb_trans (a b c : Row (option Z)) :
  key_leb ts_leb a b = true -> key_leb ts_leb b c = true ->
  key_leb ts_leb a c = true.
Proof. apply key_leb_trans, ts_leb_trans. Qed.


Lemma sort_values_case_time_sorted (df : list (Row (option Z))) :
  frame_sorted (sort_values_case_time df).
Proof.
  apply stable_sort_strongly_sorted; [exact row_leb_total | exact row_leb_trans].
Qed.

(** [prepare_event_log] sorts the parsed rows and hands the sorted frame to
    the formatting call. *)
Lemma prepare_event_log_sorted_frame
  (to_datetime : string -> option Z) (raw : list RawRow) :
  prepare_event_log to_datetime raw
  = if existsb (fun r => isna (time_timestamp r))
         (parse_column to_datetime (map loc_required raw))
    then Raise (ValueError_invalid_timestamps
                  (count_na (parse_column to_datetime (map loc_required raw))))
    else Ok (log_rows (format_dataframe (sorted_frame to_datetime raw))).
Proof.
  unfold prepare_event_log. destruct (existsb _ _); reflexivity.
Qed.




(** ** Distinct values and counts *)

Lemma NoDup_remove_dec (x : string) (l : list string) :
  NoDup l -> NoDup (remove string_dec x l).
Proof.
  induction 1 as [|y t Hy Ht IH]; simpl; [constructor|].
  destruct (string_dec x y); [exact IH|].
  constructor; [|exact IH].
  intros Hin. apply in_remove in Hin. now apply Hy.
Qed.

Lemma unique_In (a : string) (l : list string) : In a (unique l) <-> In a l.
Proof.
  induction l as [|x t IH]; simpl; [tauto|].
  split.
  - intros [->|H]; [now left|].
    apply in_remove in H. right. now apply IH.
  - intros [->|H]; [now left|].
    destruct (string_dec a x) as [->|Hne]; [now left|].
    right. apply in_in_remove; [exact Hne | now apply IH].
Qed.

Lemma unique_NoDup (l : list string) : NoDup (unique l).
Proof.
  induction l as [|x t IH]; simpl; constructor.
  - apply remove_In.
  - apply NoDup_remove_dec, IH.
Qed.

(** [nunique] counts the distinct values. *)
Lemma nunique_nodup (l : list string) :
  nunique l = Z.of_nat (length (nodup string_dec l)).
Proof.
  unfold nunique. f_equal. apply Permutation_length, NoDup_Permutation.
  - apply unique_NoDup.
  - apply NoDup_nodup.
  - intros a. rewrite unique_In, nodup_In. reflexivity.
Qed.

Lemma sum_counts_cons_key (l : list string) (k : string) (ks : list string) :
  sum_counts l (k :: ks)
  = (Z.of_nat (count_occ string_dec l k) + sum_counts l ks)%Z.
Proof. reflexivity. Qed.

Lemma sum_counts_cons_notin (x : string) (t ks : list string) :
  ~ In x ks -> sum_counts (x :: t) ks = sum_counts t ks.
Proof.
  induction ks as [|k ks IH]; [reflexivity|].
  intros H. rewrite !sum_counts_cons_key.
  rewrite count_occ_cons_neq by (intros ->; apply H; now left).
  rewrite IH; [reflexivity|]. intros Hin. apply H. now right.
Qed.

Lemma sum_counts_cons_in (x : string) (t ks : list string) :
  NoDup ks -> In x ks -> sum_counts (x :: t) ks = (1 + sum_counts t ks)%Z.
Proof.
  induction 1 as [|k ks Hk Hks IH]; [intros []|].
  intros Hin. rewrite !sum_counts_cons_key.
  destruct (string_dec k x) as [->|Hne].
  - rewrite sum_counts_cons_notin by exact Hk.
    rewrite count_occ_cons_eq by reflexivity. lia.
  - destruct Hin as [E|Hin]; [congruence|].
    rewrite (IH Hin).
    rewrite count_occ_cons_neq by congruence. lia.
Qed.

Lemma sum_counts_length (l ks : list string) :
  NoDup ks -> incl l ks -> sum_counts l ks = Z.of_nat (length l).
Proof.
  intros Hnd. induction l as [|x t IH]; intros Hincl.
  - unfold sum_counts. clear Hnd Hincl.
    induction ks as [|k ks IHk]; simpl; [reflexivity|]. exact IHk.
  - rewrite sum_counts_cons_in; [|exact Hnd|apply Hincl; now left].
    rewrite IH by (intros a Ha; apply Hincl; now right).
    simpl length. lia.
Qed.

Lemma sum_values_perm (K : Type) (d1 d2 : list (K * Z)) :
  Permutation d1 d2 -> sum_values d1 = sum_values d2.
Proof.
  unfold sum_values.
  induction 1 as [|x l1 l2 H IH|x y l|l1 l2 l3 H1 IH1 H2 IH2]; simpl; lia.
Qed.

Lemma value_counts_keys (l : list string) :
  Permutation (unique l) (map fst (value_counts l)).
Proof.
  unfold value_counts.
  eapply perm_trans; [|apply Permutation_map, stable_sort_perm].
  rewrite map_map. simpl. rewrite map_id. apply Permutation_refl.
Qed.

Lemma value_counts_sum (l : list string) :
  sum_values (value_counts l) = Z.of_nat (length l).
Proof.
  unfold value_counts.
  rewrite <- (sum_values_perm _ _ _ (stable_sort_perm _ count_desc _)).
  unfold sum_values. rewrite map_map. simpl.
  apply (sum_counts_length _ _ (unique_NoDup l)).
  intros a Ha. now apply unique_In.
Qed.

Lemma value_counts_entry (l : list string) (a : string) (n : Z) :
  In (a, n) (value_counts l) ->
  In a l /\ n = Z.of_nat (count_occ string_dec l a).
Proof.
  unfold value_counts. intros H.
  apply (Permutation_in _ (Permutation_sym (stable_sort_perm _ count_desc _)))
    in H.
  apply in_map_iff in H. destruct H as [b [E Hb]]. injection E as -> <-.
  split; [now apply unique_In | reflexivity].
Qed.

(** ** [compute_kpis] *)

Lemma nunique_zero (l : list string) : nunique l = 0%Z -> l = [].
Proof.
  unfold nunique. destruct l; simpl; [reflexivity | lia].
Qed.

(** [compute_kpis] never raises: the division is guarded. *)
Lemma compute_kpis_total (df : EventLog) :
  exists k, compute_kpis df = Ok k.
Proof.
  unfold compute_kpis, truthy, truediv.
  destruct (nunique (map (@case_concept_name Z) df) =? 0)%Z; simpl;
    eexists; reflexivity.
Qed.

Lemma compute_kpis_fields (df : EventLog) (k : KPIs) :
  compute_kpis df = Ok k ->
  cases k = nunique (map (@case_concept_name Z) df)
  /\ events k = Z.of_nat (length df)
  /\ unique_activities k = nunique (map (@concept_name Z) df)
  /\ activity_frequency_top10 k = firstn 10 (activity_freq df)
  /\ throughput_hours k =
       (let th := map snd (case_throughput_hours df) in
        mkThroughput (PyFloat (series_mean th)) (PyFloat (series_median th))
          (PyFloat (series_min th)) (PyFloat (series_max th))
          (PyFloat (series_quantile (95 # 100) th))).
Proof.
  unfold compute_kpis. intros H. apply bind_Ok_inv in H.
  destruct H as [avg [_ H]]. injection H as <-. simpl. tauto.
Qed.

(** C1 (as amended): on the empty log [compute_kpis] returns normally with
    zero cases and events and an absent [avg_events_per_case]; the five
    throughput statistics are present and are NaN. *)
Theorem compute_kpis_empty :
  exists k, compute_kpis [] = Ok k
    /\ cases k = 0%Z /\ events k = 0%Z
    /\ absent (avg_events_per_case k)
    /\ is_nan (th_mean (throughput_hours k))
    /\ is_nan (th_median (throughput_hours k))
    /\ is_nan (th_min (throughput_hours k))
    /\ is_nan (th_max (throughput_hours k))
    /\ is_nan (th_p95 (throughput_hours k)).
Proof.
  eexists. split; [reflexivity|]. repeat split.
Qed.

(** C1 as stated fails: no result of [compute_kpis] on the empty log has
    absent throughput statistics. *)
Lemma compute_kpis_empty_throughput_not_absent :
  ~ (exists k, compute_kpis [] = Ok k
       /\ cases k = 0%Z /\ events k = 0%Z
       /\ absent (avg_events_per_case k)
       /\ absent (th_mean (throughput_hours k))
       /\ absent (th_median (throughput_hours k))
       /\ absent (th_min (throughput_hours k))
       /\ absent (th_max (throughput_hours k))
       /\ absent (th_p95 (throughput_hours k))).
Proof.
  intros [k [H [_ [_ [_ [Hmean _]]]]]].
  injection H as <-. discriminate Hmean.
Qed.

Lemma sorted_by_sorting (df : EventLog) :
  stable_sort event_leb df = df -> EventLog_sorted df.
Proof.
  intros <-. apply stable_sort_strongly_sorted.
  - exact event_leb_total.
  - exact event_leb_trans.
Qed.

(** C4 (as amended): the frequency mapping that [compute_kpis] builds has an
    entry for every distinct activity of the log, each with its number of
    occurrences, and its counts add up to [events]; [cases] is the number of
    distinct case ids.  The returned record keeps the first ten entries of
    that mapping, which is all of it when the log has at most ten distinct
    activities. *)
Theorem compute_kpis_consistency (df : EventLog) :
  exists k, compute_kpis df = Ok k
    /\ (forall a, In a (map fst (activity_freq df))
                  <-> In a (map (@concept_name Z) df))
    /\ (forall a n, In (a, n) (activity_freq df) ->
          n = Z.of_nat (count_occ string_dec (map (@concept_name Z) df) a))
    /\ sum_values (activity_freq df) = events k
    /\ cases k
       = Z.of_nat (length (nodup string_dec (map (@case_concept_name Z) df)))
    /\ activity_frequency_top10 k = firstn 10 (activity_freq df)
    /\ ((unique_activities k <= 10)%Z ->
        activity_frequency_top10 k = activity_freq df).
Proof.
  destruct (compute_kpis_total df) as [k Hk]. exists k.
  destruct (compute_kpis_fields _ _ Hk) as [Hc [He [Hu [Ht _]]]].
  split; [exact Hk|]. repeat split.
  - intros H. apply unique_In.
    eapply Permutation_in; [apply Permutation_sym, value_counts_keys|exact H].
  - intros H. apply unique_In in H.
    eapply Permutation_in; [apply value_counts_keys|exact H].
  - intros a n H. now apply value_counts_entry in H.
  - rewrite He. unfold activity_freq. rewrite value_counts_sum.
    now rewrite length_map.
  - rewrite Hc. apply nunique_nodup.
  - exact Ht.
  - intros Hle. rewrite Ht. apply firstn_all2.
    rewrite Hu in Hle. unfold nunique in Hle.
    pose proof (Permutation_length
      (value_counts_keys (map (@concept_name Z) df))) as Hlen.
    rewrite length_map in Hlen. unfold activity_freq. lia.
Qed.

(** C4 as stated fails on a log with eleven distinct activities: the returned
    mapping misses one of them and its counts add up to 10, not to the 11
    events. *)
Lemma activity_frequency_top10_truncates :
  EventLog_sorted eleven_log
  /\ exists k, compute_kpis eleven_log = Ok k
       /\ events k = 11%Z
       /\ sum_values (activity_frequency_top10 k) = 10%Z
       /\ events k <> sum_values (activity_frequency_top10 k)
       /\ In "a11"%string (map (@concept_name Z) eleven_log)
       /\ ~ In "a11"%string (map fst (activity_frequency_top10 k)).
Proof.
  split; [apply sorted_by_sorting; reflexivity|].
  eexists. split; [reflexivity|]. cbn.
  repeat split; try discriminate.
  - repeat (try (left; reflexivity); right).
  - intros H. repeat (destruct H as [H|H]; [discriminate H|]). exact H.
Qed.

(** ** Edge table on a graph without edges *)

Lemma dfg_to_edges_df_nil : dfg_to_edges_df [] = Raise (KeyError "frequency").
Proof. reflexivity. Qed.

(** C2: on the log whose only case has one event the discovered graph has no
    edge and the edge-table assembly raises [KeyError], so the run as a whole
    fails; KPI computation and discovery themselves return. *)
Theorem dfg_to_edges_df_raises_without_edges :
  EventLog_sorted single_event_log
  /\ prepare_event_log sample_to_datetime
       [mkRawRow "A" "order" "2024-01-01 09:00:00" []] = Ok single_event_log
  /\ (exists k, compute_kpis single_event_log = Ok k)
  /\ dfg (discover_dfg single_event_log) = []
  /\ dfg_to_edges_df (dfg (discover_dfg single_event_log))
     = Raise (KeyError "frequency")
  /\ main sample_to_datetime [mkRawRow "A" "order" "2024-01-01 09:00:00" []]
     = Raise (KeyError "frequency").
Proof.
  split; [apply sorted_by_sorting; reflexivity|].
  split; [reflexivity|].
  split; [apply compute_kpis_total|].
  repeat split.
Qed.

(** ** The edge table *)

Lemma frequency_desc_total (a b : EdgeRow) :
  frequency_desc a b = true \/ frequency_desc b a = true.
Proof. unfold frequency_desc. rewrite !Z.leb_le. lia. Qed.

Lemma frequency_desc_trans (a b c : EdgeRow) :
  frequency_desc a b = true -> frequency_desc b c = true ->
  frequency_desc a c = true.
Proof. unfold frequency_desc. rewrite !Z.leb_le. lia. Qed.

Lemma pd_DataFrame_cons (r : EdgeRow) (rows : list EdgeRow) :
  pd_DataFrame (r :: rows)
  = mkFrame ["source"; "target"; "frequency"]%string (r :: rows).
Proof. reflexivity. Qed.

(** C3 (as amended): for a non-empty edge dict the assembled table holds
    exactly the dict's edges, one row each, in descending order of
    frequency. *)
Theorem dfg_to_edges_df_sorted (d : list ((string * string) * Z)) :
  d <> [] ->
  exists t, dfg_to_edges_df d = Ok t
    /\ columns t = ["source"; "target"; "frequency"]%string
    /\ Permutation (dict_rows d) (edge_rows t)
    /\ frequency_descending (edge_rows t).
Proof.
  intros Hd. destruct d as [|kv d]; [contradiction|].
  unfold dfg_to_edges_df. fold (dict_rows (kv :: d)).
  change (dict_rows (kv :: d))
    with (mkEdge (fst (fst kv)) (snd (fst kv)) (snd kv) :: dict_rows d).
  rewrite pd_DataFrame_cons. unfold sort_values_frequency.
  cbn [columns edge_rows existsb]. 
  replace (existsb (String.eqb "frequency")
             ["source"; "target"; "frequency"]%string) with true
    by reflexivity.
  eexists. split; [reflexivity|]. cbn [columns edge_rows].
  split; [reflexivity|]. split.
  - apply stable_sort_perm.
  - unfold frequency_descending.
    eapply StronglySorted_impl;
      [|apply (stable_sort_strongly_sorted _ frequency_desc
                 frequency_desc_total frequency_desc_trans)].
    intros a b H. now apply Z.leb_le.
Qed.

Lemma dfg_to_edges_df_sorted_witness :
  exists t, dfg_to_edges_df (dfg (discover_dfg sample_log)) = Ok t
    /\ columns t = ["source"; "target"; "frequency"]%string
    /\ Permutation (dict_rows (dfg (discover_dfg sample_log))) (edge_rows t)
    /\ frequency_descending (edge_rows t).
Proof.
  apply (dfg_to_edges_df_sorted (dfg (discover_dfg sample_log))).
  discriminate.
Defined.

(** C3 as stated fails: two edges of equal frequency stay in the order in
    which the dict yields them, here with the later source name first. *)
Lemma dfg_to_edges_df_ties_not_by_name :
  EventLog_sorted tied_dfg_log
  /\ dfg (discover_dfg tied_dfg_log) = tied_dfg
  /\ exists t, dfg_to_edges_df tied_dfg = Ok t
    /\ edge_rows t = [ mkEdge "ship" "close" 1; mkEdge "order" "ship" 1 ]%string
    /\ ~ spec_edge_order (edge_rows t).
Proof.
  split; [apply sorted_by_sorting; reflexivity|].
  split; [reflexivity|].
  eexists. split; [reflexivity|]. split; [reflexivity|].
  cbn [edge_rows]. intros H. inversion H as [|x l Hl Hx]; subst.
  inversion Hx as [|y l' Hy _]; subst. discriminate Hy.
Qed.

(** ** Directly-follows counting *)

Lemma sum_values_incr (K : Type) (keq : K -> K -> bool) (k : K)
  (d : list (K * Z)) :
  sum_values (incr keq k d) = (sum_values d + 1)%Z.
Proof.
  unfold sum_values. induction d as [|[k' v] d IH]; simpl; [reflexivity|].
  destruct (keq k k'); simpl; lia.
Qed.






Lemma group_rows_nonempty (df : EventLog) (c : string) :
  In c (map (@case_concept_name Z) df) -> group_rows df c <> [].
Proof.
  intros H. apply in_map_iff in H. destruct H as [e [<- He]].
  intros E. assert (Hin : In e (group_rows df (case_concept_name e))).
  { apply filter_In. split; [exact He | apply String.eqb_refl]. }
  rewrite E in Hin. exact Hin.
Qed.

Lemma case_sequences_nonempty (df : EventLog) :
  Forall (fun acts => acts <> []) (case_sequences df).
Proof.
  unfold case_sequences. apply Forall_forall. intros acts H.
  apply in_map_iff in H. destruct H as [c [<- Hc]].
  apply (proj1 (unique_In _ _)) in Hc. intros E. apply map_eq_nil in E.
  now apply (group_rows_nonempty df c).
Qed.


(** Grouping by case partitions the log: the case lengths add up to the
    number of events. *)
Lemma group_rows_length (df : EventLog) (c : string) :
  length (group_rows df c)
  = count_occ string_dec (map (@case_concept_name Z) df) c.
Proof.
  unfold group_rows. induction df as [|e df IH]; [reflexivity|].
  cbn [filter map]. destruct (String.eqb_spec (case_concept_name e) c) as [E|E].
  - rewrite count_occ_cons_eq by exact E. simpl. now rewrite IH.
  - rewrite count_occ_cons_neq by exact E. exact IH.
Qed.

Lemma sum_case_lengths (df : EventLog) :
  fold_right Z.add 0%Z
    (map (fun acts => Z.of_nat (length acts)) (case_sequences df))
  = Z.of_nat (length df).
Proof.
  unfold case_sequences. rewrite map_map.
  replace (Z.of_nat (length df))
    with (Z.of_nat (length (map (@case_concept_name Z) df)))
    by (now rewrite length_map).
  rewrite <- (sum_counts_length (map (@case_concept_name Z) df)
                (unique (map (@case_concept_name Z) df))
                (unique_NoDup _)).
  - unfold sum_counts. f_equal. apply map_ext. intros c.
    now rewrite length_map, group_rows_length.
  - intros a Ha. now apply unique_In.
Qed.

Lemma sum_minus_one (ls : list (list string)) :
  fold_right Z.add 0%Z (map (fun acts => Z.of_nat (length acts) - 1)%Z ls)
  = (fold_right Z.add 0%Z (map (fun acts => Z.of_nat (length acts)) ls)
     - Z.of_nat (length ls))%Z.
Proof.
  induction ls as [|l ls IH]; [reflexivity|].
  cbn [map fold_right length]. rewrite IH. lia.
Qed.

(** The conserved total, in closed form: events minus cases. *)
Lemma sum_case_lengths_minus_one_value (df : EventLog) :
  sum_case_lengths_minus_one df
  = (Z.of_nat (length df) - nunique (map (@case_concept_name Z) df))%Z.
Proof.
  unfold sum_case_lengths_minus_one.
  rewrite sum_minus_one, sum_case_lengths.
  unfold case_sequences, nunique. now rewrite length_map.
Qed.

Lemma fold_add_case_start_end (seqs : list (list string)) (st : DFG) :
  Forall (fun acts => acts <> []) seqs ->
  sum_values (start_acts (fold_left add_case seqs st))
  = (sum_values (start_acts st) + Z.of_nat (length seqs))%Z
  /\ sum_values (end_acts (fold_left add_case seqs st))
     = (sum_values (end_acts st) + Z.of_nat (length seqs))%Z.
Proof.
  intros H. revert st.
  induction H as [|acts seqs Hacts _ IH]; intros st.
  - simpl. lia.
  - cbn [fold_left length]. destruct (IH (add_case st acts)) as [-> ->].
    destruct acts as [|a t]; [contradiction|].
    unfold add_case. cbn [start_acts end_acts].
    rewrite !sum_values_incr. lia.
Qed.

(** Start and end counts each add up to the number of cases. *)
Lemma discover_dfg_start_end_totals (df : EventLog) :
  sum_values (start_acts (discover_dfg df))
  = nunique (map (@case_concept_name Z) df)
  /\ sum_values (end_acts (discover_dfg df))
     = nunique (map (@case_concept_name Z) df).
Proof.
  unfold discover_dfg.
  destruct (fold_add_case_start_end (case_sequences df) (mkDFG [] [] [])
              (case_sequences_nonempty df)) as [-> ->].
  unfold case_sequences, nunique. rewrite length_map. split; reflexivity.
Qed.

(** The spec's two-case scenario. *)
Example discover_dfg_sample :
  discover_dfg sample_log
  = mkDFG [ (("order", "ship"), 1%Z); (("ship", "close"), 1%Z);
            (("order", "close"), 1%Z) ]%string
          [ ("order", 2%Z) ]%string
          [ ("close", 2%Z) ]%string.
Proof. reflexivity. Qed.

(** ** Per-case throughput *)





Lemma group_keys_In (df : EventLog) (c : string) :
  In c (group_keys df) <-> In c (map (@case_concept_name Z) df).
Proof.
  unfold group_keys. split; intros H.
  - apply unique_In.
    eapply Permutation_in; [apply Permutation_sym, stable_sort_perm|exact H].
  - eapply Permutation_in; [apply stable_sort_perm|]. now apply unique_In.
Qed.


(** An hour is 3600 * 10^9 nanoseconds. *)
Lemma hours_of_ns_value (ns : Z) :
  hours_of_ns ns == inject_Z ns / inject_Z 3600000000000.
Proof.
  unfold hours_of_ns.
  change (inject_Z 3600000000000)
    with (inject_Z (1000000000 * 3600)).
  rewrite inject_Z_mult. field.
Qed.


Lemma ts_min_some (l : list Z) : l <> [] -> exists t, ts_min l = Some t.
Proof. destruct l; [contradiction | eexists; reflexivity]. Qed.

Lemma ts_max_some (l : list Z) : l <> [] -> exists t, ts_max l = Some t.
Proof. destruct l; [contradiction | eexists; reflexivity]. Qed.

(** Every case has a throughput value: no cell of the column is NaN. *)
Lemma case_throughput_hours_finite (df : EventLog) :
  Forall (fun x => exists q, x = Fin q) (map snd (case_throughput_hours df)).
Proof.
  unfold case_throughput_hours, case_span. rewrite !map_map.
  apply Forall_forall. intros x Hx. apply in_map_iff in Hx.
  destruct Hx as [c [<- Hc]]. cbn [snd span_start span_end].
  apply group_keys_In in Hc. apply group_rows_nonempty in Hc.
  assert (Hts : map (@time_timestamp Z) (group_rows df c) <> []).
  { intros E. apply map_eq_nil in E. contradiction. }
  destruct (ts_min_some _ Hts) as [a ->].
  destruct (ts_max_some _ Hts) as [b ->].
  eexists. reflexivity.
Qed.

Lemma series_dropna_finite (s : list pyfloat) :
  Forall (fun x => exists q, x = Fin q) s ->
  length (series_dropna s) = length s.
Proof.
  induction 1 as [|x s [q ->] _ IH]; [reflexivity|].
  change (series_dropna (Fin q :: s)) with (q :: series_dropna s).
  simpl. now rewrite IH.
Qed.

(** The throughput distribution has one duration per case. *)
Lemma case_durations_length (df : EventLog) :
  Z.of_nat (length (case_durations df))
  = nunique (map (@case_concept_name Z) df).
Proof.
  unfold case_durations.
  rewrite series_dropna_finite by apply case_throughput_hours_finite.
  unfold case_throughput_hours, case_span, group_keys, nunique.
  now rewrite !length_map, stable_sort_length.
Qed.

Lemma case_durations_nonempty (df : EventLog) :
  df <> [] -> case_durations df <> [].
Proof.
  intros Hdf E. pose proof (case_durations_length df) as H.
  rewrite E in H. symmetry in H. apply nunique_zero in H.
  apply map_eq_nil in H. contradiction.
Qed.



(** A single-event case has throughput 0.0 hours. *)
Example single_event_throughput :
  throughput_of single_event_log "A" = Some (Fin (hours_of_ns 0)).
Proof. reflexivity. Qed.

(** ** Median and quantile *)

Lemma Qfloor_unique (x : Q) (z : Z) :
  inject_Z z <= x -> x < inject_Z (z + 1) -> Qfloor x = z.
Proof.
  intros Hle Hlt.
  pose proof (Qfloor_le x) as H1. pose proof (Qlt_floor x) as H2.
  assert (A : (Qfloor x < z + 1)%Z).
  { rewrite Zlt_Qlt. eapply Qle_lt_trans; eassumption. }
  assert (B : (z < Qfloor x + 1)%Z).
  { rewrite Zlt_Qlt. eapply Qle_lt_trans; eassumption. }
  lia.
Qed.

Lemma Qceiling_unique (x : Q) (z : Z) :
  inject_Z (z - 1) < x -> x <= inject_Z z -> Qceiling x = z.
Proof.
  intros Hlt Hle.
  pose proof (Qle_ceiling x) as H1. pose proof (Qceiling_lt x) as H2.
  assert (A : (z - 1 < Qceiling x)%Z).
  { rewrite Zlt_Qlt. eapply Qlt_le_trans; eassumption. }
  assert (B : (Qceiling x - 1 < z)%Z).
  { rewrite Zlt_Qlt. eapply Qlt_le_trans; eassumption. }
  lia.
Qed.

Lemma Qceiling_floor_cases (x : Q) :
  (Qceiling x = Qfloor x /\ x == inject_Z (Qfloor x))
  \/ Qceiling x = (Qfloor x + 1)%Z.
Proof.
  pose proof (Qfloor_le x) as H1. pose proof (Qlt_floor x) as H2.
  pose proof (Qle_ceiling x) as H3. pose proof (Qceiling_lt x) as H4.
  assert (A : (Qfloor x <= Qceiling x)%Z).
  { rewrite Zle_Qle. eapply Qle_trans; eassumption. }
  assert (B : (Qceiling x - 1 < Qfloor x + 1)%Z).
  { rewrite Zlt_Qlt. eapply Qlt_trans; eassumption. }
  destruct (Z.eq_dec (Qceiling x) (Qfloor x)) as [E|E]; [left | right; lia].
  split; [exact E|]. rewrite E in H3. apply Qle_antisym; assumption.
Qed.

Lemma lerp_linear (a b t : Q) : lerp a b t == a + t * (b - a).
Proof. unfold lerp. destruct (Qle_bool (1 # 2) t); ring. Qed.

Lemma percentile_linear_spec (p : Q) (xs : list Q) :
  xs <> [] -> p <= 1 ->
  percentile_linear p xs == spec_percentile p xs.
Proof.
  intros Hxs Hp. unfold percentile_linear, spec_percentile.
  set (a := stable_sort Qle_bool xs).
  assert (Hn : (1 <= Z.of_nat (length a))%Z).
  { subst a. rewrite stable_sort_length. destruct xs; [contradiction|simpl; lia]. }
  set (m := (Z.of_nat (length a) - 1)%Z) in *.
  assert (Hm : 0 <= inject_Z m).
  { change 0 with (inject_Z 0). rewrite <- Zle_Qle. lia. }
  assert (Hv : inject_Z m * p == p * inject_Z m) by ring.
  cbv zeta. rewrite lerp_linear.
  rewrite (Qfloor_comp _ _ Hv).
  set (pos := p * inject_Z m) in *.
  destruct (Qle_bool (inject_Z m) (inject_Z m * p)) eqn:A.
  - apply Qle_bool_iff in A.
    assert (E : pos == inject_Z m).
    { apply Qle_antisym; [|now rewrite <- Hv]. subst pos. nra. }
    rewrite (Qfloor_comp _ _ E), (Qceiling_comp _ _ E), Qfloor_Z, Qceiling_Z.
    rewrite Hv, E. ring.
  - destruct (Qceiling_floor_cases pos) as [[Ec Ex]|Ec]; rewrite Ec.
    + assert (G : pos - inject_Z (Qfloor pos) == 0) by (rewrite Ex at 1; ring).
      rewrite Hv, G. ring.
    + rewrite Hv. ring.
Qed.

Lemma half_pos_odd (K : Z) : (1 # 2) * inject_Z (2 * K + 1 - 1) == inject_Z K.
Proof. unfold Qeq, Qmult, inject_Z. cbn [Qnum Qden]. lia. Qed.

Lemma half_pos_even_floor (K : Z) :
  Qfloor ((1 # 2) * inject_Z (2 * K - 1)) = (K - 1)%Z.
Proof.
  apply Qfloor_unique; unfold Qle, Qlt, Qmult, inject_Z; cbn [Qnum Qden]; lia.
Qed.

Lemma half_pos_even_ceiling (K : Z) :
  Qceiling ((1 # 2) * inject_Z (2 * K - 1)) = K.
Proof.
  apply Qceiling_unique; unfold Qle, Qlt, Qmult, inject_Z; cbn [Qnum Qden]; lia.
Qed.

Lemma half_pos_even_frac (K : Z) :
  (1 # 2) * inject_Z (2 * K - 1) - inject_Z (K - 1) == 1 # 2.
Proof. unfold Qeq, Qminus, Qplus, Qopp, Qmult, inject_Z. cbn [Qnum Qden]. lia. Qed.

Lemma Qmean_one (x : Q) : Qmean [x] == x.
Proof. unfold Qmean, Qsum. simpl. field. Qed.

Lemma Qmean_two (x y : Q) : Qmean [x; y] == x + (1 # 2) * (y - x).
Proof. unfold Qmean, Qsum. simpl. field. Qed.

Lemma median_of_spec (xs : list Q) :
  xs <> [] -> median_of xs == spec_percentile (1 # 2) xs.
Proof.
  intros Hxs. unfold median_of, spec_percentile.
  set (a := stable_sort Qle_bool xs).
  assert (Hn : (1 <= length a)%nat).
  { subst a. rewrite stable_sort_length. destruct xs; [contradiction|simpl; lia]. }
  cbv zeta. generalize dependent (length a). intros n Hn.
  destruct (Nat.odd n) eqn:O.
  - apply Nat.odd_spec in O. destruct O as [k ->].
    replace ((2 * k + 1) / 2)%nat with k by (apply Nat.div_unique with 1%nat; lia).
    replace (Z.of_nat (2 * k + 1) - 1)%Z with (2 * Z.of_nat k + 1 - 1)%Z by lia.
    rewrite (Qfloor_comp _ _ (half_pos_odd _)), (Qceiling_comp _ _ (half_pos_odd _)).
    rewrite Qfloor_Z, Qceiling_Z, Nat2Z.id, Qmean_one. ring.
  - assert (E : Nat.even n = true) by (rewrite <- Nat.negb_odd, O; reflexivity).
    apply Nat.even_spec in E. destruct E as [k ->].
    replace ((2 * k) / 2)%nat with k by (apply Nat.div_unique with 0%nat; lia).
    replace (Z.of_nat (2 * k) - 1)%Z with (2 * Z.of_nat k - 1)%Z by lia.
    rewrite half_pos_even_floor, half_pos_even_ceiling, half_pos_even_frac.
    replace (Z.to_nat (Z.of_nat k - 1)) with (k - 1)%nat by lia.
    rewrite Nat2Z.id, Qmean_two. ring.
Qed.



(** The scenario's statistics: mean 1.75, median 1.75, min 0.5, max 3.0. *)
Example sample_throughput_statistics :
  exists mean median lo hi,
    throughput_hours sample_kpis
    = mkThroughput (PyFloat (Fin mean)) (PyFloat (Fin median))
        (PyFloat (Fin lo)) (PyFloat (Fin hi))
        (th_p95 (throughput_hours sample_kpis))
    /\ mean == 7 # 4 /\ median == 7 # 4 /\ lo == 1 # 2 /\ hi == 3.
Proof.
  do 4 eexists. split; [reflexivity|]. repeat split; reflexivity.
Qed.

(** * Further properties *)

(** ** Counts and averages of [compute_kpis] *)

Lemma unique_length_le (l : list string) :
  (length (unique l) <= length l)%nat.
Proof.
  induction l as [|x t IH]; simpl; [lia|].
  pose proof (remove_length_le string_dec (unique t) x). lia.
Qed.

Lemma nunique_bounds (l : list string) :
  (0 <= nunique l <= Z.of_nat (length l))%Z
  /\ (l <> [] -> 1 <= nunique l)%Z.
Proof.
  unfold nunique. pose proof (unique_length_le l). split; [lia|].
  destruct l; [contradiction|]. simpl. lia.
Qed.

Lemma nunique_column_bounds (f : Event -> string) (df : EventLog) :
  (0 <= nunique (map f df) <= Z.of_nat (length df))%Z
  /\ (df <> [] -> 1 <= nunique (map f df))%Z.
Proof.
  destruct (nunique_bounds (map f df)) as [Hb Hp].
  rewrite length_map in Hb. split; [exact Hb|].
  intros Hdf. apply Hp. intros E. apply map_eq_nil in E. contradiction.
Qed.

(** On a non-empty log [avg_events_per_case] is the float events / cases,
    and it is at least 1. *)
Theorem compute_kpis_avg_events_per_case (df : EventLog) (k : KPIs) :
  df <> [] ->
  compute_kpis df = Ok k ->
  (1 <= cases k <= events k)%Z
  /\ exists q, avg_events_per_case k = PyFloat (Fin q)
       /\ q == inject_Z (events k) / inject_Z (cases k)
       /\ 1 <= q.
Proof.
  intros Hdf Hk.
  destruct (nunique_column_bounds (@case_concept_name Z) df) as [Hb Hpos].
  specialize (Hpos Hdf).
  unfold compute_kpis, truthy, truediv in Hk. unfold EventLog, Event in *.
  destruct (nunique (map (@case_concept_name Z) df) =? 0)%Z eqn:E;
    [apply Z.eqb_eq in E; lia|].
  cbn [bind negb] in Hk. injection Hk as <-. cbn [cases events avg_events_per_case].
  split; [lia|]. eexists. split; [reflexivity|]. split; [reflexivity|].
  apply Qle_shift_div_l.
  - change 0 with (inject_Z 0). rewrite <- Zlt_Qlt. lia.
  - rewrite Qmult_1_l. rewrite <- Zle_Qle. lia.
Qed.

Lemma compute_kpis_avg_events_per_case_witness :
  (1 <= cases sample_kpis <= events sample_kpis)%Z
  /\ exists q, avg_events_per_case sample_kpis = PyFloat (Fin q)
       /\ q == inject_Z (events sample_kpis) / inject_Z (cases sample_kpis)
       /\ 1 <= q.
Proof.
  apply (compute_kpis_avg_events_per_case sample_log sample_kpis).
  - discriminate.
  - reflexivity.
Defined.

(** The counts of the KPI record are consistent: neither the number of cases
    nor the number of distinct activities exceeds the number of events, the
    latter counts the distinct activity labels, and a log has no case exactly
    when it has no event. *)
Theorem compute_kpis_count_bounds (df : EventLog) :
  exists k, compute_kpis df = Ok k
    /\ (0 <= cases k <= events k)%Z
    /\ (0 <= unique_activities k <= events k)%Z
    /\ unique_activities k
       = Z.of_nat (length (nodup string_dec (map (@concept_name Z) df)))
    /\ (cases k = 0%Z <-> events k = 0%Z)
    /\ (unique_activities k = 0%Z <-> events k = 0%Z).
Proof.
  destruct (compute_kpis_total df) as [k Hk]. exists k.
  destruct (compute_kpis_fields _ _ Hk) as [Hc [He [Hu _]]].
  destruct (nunique_column_bounds (@case_concept_name Z) df) as [Hb1 Hp1].
  destruct (nunique_column_bounds (@concept_name Z) df) as [Hb2 Hp2].
  rewrite Hc, He, Hu. unfold EventLog, Event in *.
  split; [exact Hk|]. split; [lia|]. split; [lia|].
  split; [apply nunique_nodup|].
  assert (Hz : Z.of_nat (length df) = 0%Z -> df = []).
  { destruct df; [reflexivity | simpl; lia]. }
  split; split; intros H.
  - destruct df as [|r df]; [reflexivity|].
    assert (r :: df <> []) by discriminate. specialize (Hp1 H0). lia.
  - rewrite (Hz H). reflexivity.
  - destruct df as [|r df]; [reflexivity|].
    assert (r :: df <> []) by discriminate. specialize (Hp2 H0). lia.
  - rewrite (Hz H). reflexivity.
Qed.

(** ** The time window *)

Lemma fold_left_min_spec (t : list Z) (x : Z) :
  let m := fold_left Z.min t x in
  In m (x :: t) /\ Forall (fun y => (m <= y)%Z) (x :: t).
Proof.
  revert x. induction t as [|y t IH]; intros x; cbn [fold_left].
  - split; [now left | repeat constructor; lia].
  - destruct (IH (Z.min x y)) as [Hin Hall]. split.
    + destruct Hin as [E|Hin]; [|right; right; exact Hin].
      rewrite <- E. destruct (Z.min_spec x y) as [[_ ->]|[_ ->]];
        [now left | right; now left].
    + apply Forall_cons_iff in Hall. destruct Hall as [Hm Hall].
      repeat constructor; try lia. exact Hall.
Qed.

Lemma fold_left_max_spec (t : list Z) (x : Z) :
  let m := fold_left Z.max t x in
  In m (x :: t) /\ Forall (fun y => (y <= m)%Z) (x :: t).
Proof.
  revert x. induction t as [|y t IH]; intros x; cbn [fold_left].
  - split; [now left | repeat constructor; lia].
  - destruct (IH (Z.max x y)) as [Hin Hall]. split.
    + destruct Hin as [E|Hin]; [|right; right; exact Hin].
      rewrite <- E. destruct (Z.max_spec x y) as [[_ ->]|[_ ->]];
        [right; now left | now left].
    + apply Forall_cons_iff in Hall. destruct Hall as [Hm Hall].
      repeat constructor; try lia. exact Hall.
Qed.

Lemma ts_min_spec (l : list Z) (m : Z) :
  ts_min l = Some m -> In m l /\ forall y, In y l -> (m <= y)%Z.
Proof.
  destruct l as [|x t]; [discriminate|]. intros H. injection H as <-.
  destruct (fold_left_min_spec t x) as [Hin Hall].
  split; [exact Hin|]. now apply Forall_forall.
Qed.

Lemma ts_max_spec (l : list Z) (m : Z) :
  ts_max l = Some m -> In m l /\ forall y, In y l -> (y <= m)%Z.
Proof.
  destruct l as [|x t]; [discriminate|]. intros H. injection H as <-.
  destruct (fold_left_max_spec t x) as [Hin Hall].
  split; [exact Hin|]. now apply Forall_forall.
Qed.

(** The time window of a non-empty log is spanned by two of its events and
    contains the timestamp of every event, whatever the order of the rows. *)
Theorem compute_kpis_time_window (df : EventLog) (k : KPIs) :
  df <> [] ->
  compute_kpis df = Ok k ->
  exists lo hi e_lo e_hi,
    first_event k = Some lo /\ last_event k = Some hi
    /\ In e_lo df /\ time_timestamp e_lo = lo
    /\ In e_hi df /\ time_timestamp e_hi = hi
    /\ forall e, In e df -> (lo <= time_timestamp e <= hi)%Z.
Proof.
  intros Hdf Hk. unfold compute_kpis in Hk. apply bind_Ok_inv in Hk.
  destruct Hk as [avg [_ Hk]]. injection Hk as <-.
  cbn [first_event last_event].
  assert (Hts : map (@time_timestamp Z) df <> []).
  { intros E. apply map_eq_nil in E. contradiction. }
  destruct (ts_min_some _ Hts) as [lo Hlo].
  destruct (ts_max_some _ Hts) as [hi Hhi].
  destruct (ts_min_spec _ _ Hlo) as [Hlo_in Hlo_le].
  destruct (ts_max_spec _ _ Hhi) as [Hhi_in Hhi_le].
  apply in_map_iff in Hlo_in. destruct Hlo_in as [e_lo [E1 H1]].
  apply in_map_iff in Hhi_in. destruct Hhi_in as [e_hi [E2 H2]].
  exists lo, hi, e_lo, e_hi. repeat split; try assumption.
  - apply Hlo_le. now apply in_map.
  - apply Hhi_le. now apply in_map.
Qed.

Lemma compute_kpis_time_window_witness :
  exists lo hi e_lo e_hi,
    first_event sample_kpis = Some lo /\ last_event sample_kpis = Some hi
    /\ In e_lo sample_log /\ time_timestamp e_lo = lo
    /\ In e_hi sample_log /\ time_timestamp e_hi = hi
    /\ forall e, In e sample_log -> (lo <= time_timestamp e <= hi)%Z.
Proof.
  apply (compute_kpis_time_window sample_log sample_kpis).
  - discriminate.
  - reflexivity.
Defined.

(** ** The ten most frequent activities *)

Lemma StronglySorted_app_le (A : Type) (R : A -> A -> Prop)
  (l1 l2 : list A) :
  StronglySorted R (l1 ++ l2) ->
  forall a b, In a l1 -> In b l2 -> R a b.
Proof.
  induction l1 as [|x l1 IH]; intros H a b Ha Hb; [destruct Ha|].
  simpl in H. apply StronglySorted_inv in H. destruct H as [Hs Hx].
  destruct Ha as [<-|Ha].
  - rewrite Forall_forall in Hx. apply Hx, in_or_app. now right.
  - now apply IH.
Qed.

Lemma StronglySorted_app_l (A : Type) (R : A -> A -> Prop)
  (l1 l2 : list A) :
  StronglySorted R (l1 ++ l2) -> StronglySorted R l1.
Proof.
  induction l1 as [|x l1 IH]; intros H; [constructor|].
  simpl in H. apply StronglySorted_inv in H. destruct H as [Hs Hx].
  constructor; [now apply IH|].
  rewrite Forall_forall in *. intros y Hy. apply Hx, in_or_app. now left.
Qed.

Lemma count_desc_total (p q : string * Z) :
  count_desc p q = true \/ count_desc q p = true.
Proof. unfold count_desc. rewrite !Z.leb_le. lia. Qed.

Lemma count_desc_trans (p q r : string * Z) :
  count_desc p q = true -> count_desc q r = true -> count_desc p r = true.
Proof. unfold count_desc. rewrite !Z.leb_le. lia. Qed.

Lemma activity_freq_sorted (df : EventLog) :
  StronglySorted (fun p q => (snd q <= snd p)%Z) (activity_freq df).
Proof.
  unfold activity_freq, value_counts.
  eapply StronglySorted_impl;
    [|apply (stable_sort_strongly_sorted _ count_desc
               count_desc_total count_desc_trans)].
  intros p q H. now apply Z.leb_le.
Qed.

Lemma activity_freq_keys_NoDup (df : EventLog) :
  NoDup (map fst (activity_freq df)).
Proof.
  eapply Permutation_NoDup; [apply value_counts_keys | apply unique_NoDup].
Qed.

(** The entries kept in [activity_frequency_top10] are the most frequent
    activities: at most ten entries with distinct labels, in descending
    order of count, each count at least 1, and no activity that was left out
    occurs more often than one that was kept. *)
Theorem activity_frequency_top10_most_frequent (df : EventLog) :
  exists k, compute_kpis df = Ok k
    /\ (length (activity_frequency_top10 k) <= 10)%nat
    /\ NoDup (map fst (activity_frequency_top10 k))
    /\ StronglySorted (fun p q => (snd q <= snd p)%Z)
         (activity_frequency_top10 k)
    /\ (forall a n, In (a, n) (activity_frequency_top10 k) ->
          (1 <= n)%Z
          /\ n = Z.of_nat (count_occ string_dec (map (@concept_name Z) df) a))
    /\ (forall p q, In p (activity_frequency_top10 k) ->
          In q (activity_freq df) ->
          ~ In q (activity_frequency_top10 k) ->
          (snd q <= snd p)%Z).
Proof.
  destruct (compute_kpis_total df) as [k Hk]. exists k.
  destruct (compute_kpis_fields _ _ Hk) as [_ [_ [_ [Ht _]]]].
  rewrite Ht. split; [exact Hk|].
  pose proof (firstn_skipn 10 (activity_freq df)) as Hsplit.
  pose proof (activity_freq_sorted df) as Hs. rewrite <- Hsplit in Hs.
  pose proof (activity_freq_keys_NoDup df) as Hnd.
  rewrite <- Hsplit, map_app in Hnd.
  split; [apply firstn_le_length|].
  split; [eapply NoDup_app_remove_r; exact Hnd|].
  split; [eapply StronglySorted_app_l; exact Hs|].
  split.
  - intros a n Hin.
    assert (Hin' : In (a, n) (activity_freq df)).
    { rewrite <- Hsplit. apply in_or_app. now left. }
    clear Hin. rename Hin' into Hin. unfold activity_freq in Hin.
    apply value_counts_entry in Hin. destruct Hin as [Hin ->].
    split; [|reflexivity]. apply (count_occ_In string_dec) in Hin. lia.
  - intros p q Hp Hq Hnot. rewrite <- Hsplit in Hq.
    apply in_app_or in Hq. destruct Hq as [Hq|Hq]; [contradiction|].
    apply (StronglySorted_app_le _ _ _ _ Hs p q Hp Hq).
Qed.

(** ** Throughput values and their statistics *)

Lemma hours_of_ns_nonneg (ns : Z) : (0 <= ns)%Z -> 0 <= hours_of_ns ns.
Proof.
  intros H. rewrite hours_of_ns_value. apply Qle_shift_div_l.
  - reflexivity.
  - rewrite Qmult_0_l. change 0 with (inject_Z 0). now rewrite <- Zle_Qle.
Qed.

Lemma group_keys_NoDup (df : EventLog) : NoDup (group_keys df).
Proof.
  unfold group_keys.
  eapply Permutation_NoDup; [apply stable_sort_perm | apply unique_NoDup].
Qed.

Lemma case_throughput_hours_keys (df : EventLog) :
  map fst (case_throughput_hours df) = group_keys df.
Proof.
  unfold case_throughput_hours, case_span. rewrite !map_map.
  cbn [fst span_case]. apply map_id.
Qed.

Lemma case_throughput_entry (df : EventLog) (c : string) (x : pyfloat) :
  In (c, x) (case_throughput_hours df) ->
  exists lo hi,
    ts_min (map (@time_timestamp Z) (group_rows df c)) = Some lo
    /\ ts_max (map (@time_timestamp Z) (group_rows df c)) = Some hi
    /\ (lo <= hi)%Z
    /\ x = Fin (hours_of_ns (hi - lo)).
Proof.
  unfold case_throughput_hours, case_span. rewrite map_map.
  intros H. apply in_map_iff in H. destruct H as [c' [E Hc]].
  cbn [span_case span_start span_end] in E. injection E as -> <-.
  apply group_keys_In in Hc. apply group_rows_nonempty in Hc.
  assert (Hts : map (@time_timestamp Z) (group_rows df c) <> []).
  { intros E. apply map_eq_nil in E. contradiction. }
  destruct (ts_min_some _ Hts) as [lo Hlo].
  destruct (ts_max_some _ Hts) as [hi Hhi].
  exists lo, hi. rewrite Hlo, Hhi.
  destruct (ts_min_spec _ _ Hlo) as [_ Hle].
  destruct (ts_max_spec _ _ Hhi) as [Hin _].
  repeat split. now apply Hle.
Qed.

(** The throughput table has one row per case, and every throughput is a
    finite, non-negative number of hours, whatever the order of the rows of
    the log. *)
Theorem case_throughput_nonnegative (df : EventLog) :
  NoDup (map fst (case_throughput_hours df))
  /\ (forall c, In c (map fst (case_throughput_hours df))
                <-> In c (map (@case_concept_name Z) df))
  /\ (forall c x, In (c, x) (case_throughput_hours df) ->
        exists q, x = Fin q /\ 0 <= q).
Proof.
  rewrite case_throughput_hours_keys. split; [apply group_keys_NoDup|].
  split; [intros c; apply group_keys_In|].
  intros c x H. apply case_throughput_entry in H.
  destruct H as [lo [hi [_ [_ [Hle ->]]]]].
  eexists. split; [reflexivity|]. apply hours_of_ns_nonneg. lia.
Qed.

Lemma series_dropna_In (s : list pyfloat) (q : Q) :
  In q (series_dropna s) <-> In (Fin q) s.
Proof.
  unfold series_dropna. rewrite in_flat_map. split.
  - intros [x [Hx Hq]]. destruct x as [|q']; [destruct Hq|].
    destruct Hq as [<-|[]]. exact Hx.
  - intros H. exists (Fin q). split; [exact H | now left].
Qed.

Lemma case_durations_nonneg (df : EventLog) (q : Q) :
  In q (case_durations df) -> 0 <= q.
Proof.
  unfold case_durations. intros H. apply series_dropna_In in H.
  apply in_map_iff in H. destruct H as [[c x] [E H]]. simpl in E. subst x.
  apply case_throughput_entry in H.
  destruct H as [lo [hi [_ [_ [Hle E]]]]]. injection E as ->.
  apply hours_of_ns_nonneg. lia.
Qed.

(** ** Order of the throughput statistics *)

Lemma Qle_bool_total (x y : Q) : Qle_bool x y = true \/ Qle_bool y x = true.
Proof.
  rewrite !Qle_bool_iff. destruct (Qlt_le_dec x y) as [H|H];
    [left; now apply Qlt_le_weak | now right].
Qed.

Lemma Qle_bool_trans (x y z : Q) :
  Qle_bool x y = true -> Qle_bool y z = true -> Qle_bool x z = true.
Proof. rewrite !Qle_bool_iff. apply Qle_trans. Qed.

Lemma sorted_values (xs : list Q) :
  StronglySorted Qle (stable_sort Qle_bool xs).
Proof.
  eapply StronglySorted_impl;
    [|apply (stable_sort_strongly_sorted _ Qle_bool
               Qle_bool_total Qle_bool_trans)].
  intros x y H. now apply Qle_bool_iff.
Qed.

Lemma nth_sorted_le (a : list Q) (i j : nat) :
  StronglySorted Qle a -> (i <= j < length a)%nat ->
  nth i a 0 <= nth j a 0.
Proof.
  intros Hs. revert i j. induction Hs as [|x t Ht IH Hx]; intros i j Hij.
  - simpl in Hij. lia.
  - destruct i as [|i], j as [|j]; simpl in *; try lia.
    + apply Qle_refl.
    + rewrite Forall_forall in Hx. apply Hx, nth_In. lia.
    + apply IH. lia.
Qed.

Lemma fold_left_Qmin_spec (t : list Q) (x : Q) :
  let m := fold_left Qmin_b t x in
  In m (x :: t) /\ forall y, In y (x :: t) -> m <= y.
Proof.
  revert x. induction t as [|y t IH]; intros x; cbn [fold_left].
  - split; [now left|]. intros y [<-|[]]. apply Qle_refl.
  - destruct (IH (Qmin_b x y)) as [Hin Hall].
    assert (Hm : Qmin_b x y <= x /\ Qmin_b x y <= y
                 /\ (Qmin_b x y = x \/ Qmin_b x y = y)).
    { unfold Qmin_b. destruct (Qle_bool x y) eqn:E.
      - apply Qle_bool_iff in E. repeat split; auto. apply Qle_refl.
      - repeat split; auto; [|apply Qle_refl].
        destruct (Qle_bool_total x y) as [E'|E']; [congruence|].
        now apply Qle_bool_iff. }
    destruct Hm as [Hx [Hy Hor]]. split.
    + destruct Hin as [E|Hin]; [|right; right; exact Hin].
      rewrite <- E. destruct Hor as [->| ->]; [now left | right; now left].
    + intros z [<-|[<-|Hz]].
      * eapply Qle_trans; [apply Hall; now left | exact Hx].
      * eapply Qle_trans; [apply Hall; now left | exact Hy].
      * apply Hall. now right.
Qed.

Lemma fold_left_Qmax_spec (t : list Q) (x : Q) :
  let m := fold_left Qmax_b t x in
  In m (x :: t) /\ forall y, In y (x :: t) -> y <= m.
Proof.
  revert x. induction t as [|y t IH]; intros x; cbn [fold_left].
  - split; [now left|]. intros y [<-|[]]. apply Qle_refl.
  - destruct (IH (Qmax_b x y)) as [Hin Hall].
    assert (Hm : x <= Qmax_b x y /\ y <= Qmax_b x y
                 /\ (Qmax_b x y = x \/ Qmax_b x y = y)).
    { unfold Qmax_b. destruct (Qle_bool x y) eqn:E.
      - apply Qle_bool_iff in E. repeat split; auto. apply Qle_refl.
      - repeat split; auto; [apply Qle_refl|].
        destruct (Qle_bool_total x y) as [E'|E']; [congruence|].
        now apply Qle_bool_iff. }
    destruct Hm as [Hx [Hy Hor]]. split.
    + destruct Hin as [E|Hin]; [|right; right; exact Hin].
      rewrite <- E. destruct Hor as [->| ->]; [now left | right; now left].
    + intros z [<-|[<-|Hz]].
      * eapply Qle_trans; [exact Hx | apply Hall; now left].
      * eapply Qle_trans; [exact Hy | apply Hall; now left].
      * apply Hall. now right.
Qed.

Lemma spec_percentile_interpolate (p : Q) (xs : list Q) :
  spec_percentile p xs
  = interpolate_at (stable_sort Qle_bool xs)
      (p * inject_Z (Z.of_nat (length (stable_sort Qle_bool xs)) - 1)).
Proof. reflexivity. Qed.

Section Interpolation.

Variable a : list Q.
Hypothesis a_sorted : StronglySorted Qle a.

Lemma position_indices (pos : Q) :
  0 <= pos -> pos <= inject_Z (Z.of_nat (length a) - 1) ->
  (0 <= Qfloor pos <= Qceiling pos)%Z
  /\ (Qceiling pos < Z.of_nat (length a))%Z.
Proof.
  intros H0 H1. split; [split|].
  - exact (Qfloor_resp_le _ _ H0).
  - rewrite Zle_Qle. apply Qle_floor_ceiling.
  - pose proof (Qceiling_resp_le _ _ H1) as H.
    rewrite Qceiling_Z in H. lia.
Qed.

Lemma nth_sorted_le_Z (i j : Z) :
  (0 <= i <= j)%Z -> (j < Z.of_nat (length a))%Z ->
  nth (Z.to_nat i) a 0 <= nth (Z.to_nat j) a 0.
Proof. intros Hij Hj. apply nth_sorted_le; [exact a_sorted | lia]. Qed.

(** The interpolated value lies between the two order statistics around the
    position. *)
Lemma interpolate_at_bounds (pos : Q) :
  0 <= pos -> pos <= inject_Z (Z.of_nat (length a) - 1) ->
  nth (Z.to_nat (Qfloor pos)) a 0 <= interpolate_at a pos
  /\ interpolate_at a pos <= nth (Z.to_nat (Qceiling pos)) a 0.
Proof.
  intros H0 H1. destruct (position_indices pos H0 H1) as [Hi Hj].
  pose proof (nth_sorted_le_Z _ _ Hi Hj) as Hle.
  pose proof (Qfloor_le pos) as Hf0. pose proof (Qlt_floor pos) as Hf1.
  rewrite inject_Z_plus in Hf1. change (inject_Z 1) with 1 in Hf1.
  unfold interpolate_at. cbv zeta.
  set (x := nth (Z.to_nat (Qfloor pos)) a 0) in *.
  set (y := nth (Z.to_nat (Qceiling pos)) a 0) in *.
  set (f := inject_Z (Qfloor pos)) in *.
  split; nra.
Qed.

(** The interpolated value does not decrease with the position. *)
Lemma interpolate_at_mono (pos1 pos2 : Q) :
  0 <= pos1 -> pos1 <= pos2 ->
  pos2 <= inject_Z (Z.of_nat (length a) - 1) ->
  interpolate_at a pos1 <= interpolate_at a pos2.
Proof.
  intros H0 H12 H2.
  assert (H1 : pos1 <= inject_Z (Z.of_nat (length a) - 1))
    by (eapply Qle_trans; eassumption).
  assert (H0' : 0 <= pos2) by (eapply Qle_trans; eassumption).
  destruct (position_indices pos1 H0 H1) as [Hi1 Hj1].
  destruct (position_indices pos2 H0' H2) as [Hi2 Hj2].
  destruct (interpolate_at_bounds pos1 H0 H1) as [L1 U1].
  destruct (interpolate_at_bounds pos2 H0' H2) as [L2 U2].
  pose proof (Qfloor_resp_le _ _ H12) as Hfl.
  pose proof (Qceiling_resp_le _ _ H12) as Hce.
  destruct (Z.eq_dec (Qfloor pos1) (Qfloor pos2)) as [E|NE].
  - destruct (Qceiling_floor_cases pos1) as [[Ec Ex]|Ec].
    + apply Qle_trans with (nth (Z.to_nat (Qfloor pos2)) a 0); [|exact L2].
      rewrite <- E. unfold interpolate_at. cbv zeta. rewrite Ec.
      setoid_replace (pos1 - inject_Z (Qfloor pos1)) with 0
        by (rewrite Ex at 1; ring).
      ring_simplify. apply Qle_refl.
    + assert (Ec2 : Qceiling pos2 = Qceiling pos1).
      { destruct (Qceiling_floor_cases pos2) as [[Ec2 _]|Ec2]; lia. }
      assert (Hle : nth (Z.to_nat (Qfloor pos1)) a 0
                    <= nth (Z.to_nat (Qceiling pos1)) a 0)
        by (apply nth_sorted_le_Z; lia).
      unfold interpolate_at. cbv zeta. rewrite Ec2, <- E.
      set (x := nth (Z.to_nat (Qfloor pos1)) a 0) in *.
      set (y := nth (Z.to_nat (Qceiling pos1)) a 0) in *.
      set (f := inject_Z (Qfloor pos1)) in *.
      nra.
  - apply Qle_trans with (nth (Z.to_nat (Qceiling pos1)) a 0); [exact U1|].
    apply Qle_trans with (nth (Z.to_nat (Qfloor pos2)) a 0); [|exact L2].
    apply nth_sorted_le_Z; [|lia].
    destruct (Qceiling_floor_cases pos1) as [[Ec _]|Ec]; lia.
Qed.

End Interpolation.

Lemma sorted_values_In (xs : list Q) (i : Z) :
  (0 <= i < Z.of_nat (length (stable_sort Qle_bool xs)))%Z ->
  In (nth (Z.to_nat i) (stable_sort Qle_bool xs) 0) xs.
Proof.
  intros Hi.
  eapply Permutation_in; [apply Permutation_sym, stable_sort_perm|].
  apply nth_In. lia.
Qed.

(** The specification's percentile is an interpolation between values of the
    list and does not decrease with [p]. *)
Lemma spec_percentile_between (p : Q) (xs : list Q) :
  xs <> [] -> 0 <= p -> p <= 1 ->
  exists x y, In x xs /\ In y xs
    /\ x <= spec_percentile p xs /\ spec_percentile p xs <= y.
Proof.
  intros Hxs H0 H1. rewrite spec_percentile_interpolate.
  set (a := stable_sort Qle_bool xs).
  assert (Hm : (0 <= Z.of_nat (length a) - 1)%Z).
  { subst a. rewrite stable_sort_length.
    assert (0 < length xs)%nat; [|lia].
    destruct xs; [contradiction | cbn [length]; lia]. }
  assert (Hq : 0 <= inject_Z (Z.of_nat (length a) - 1)).
  { change 0 with (inject_Z 0). now rewrite <- Zle_Qle. }
  set (pos := p * inject_Z (Z.of_nat (length a) - 1)).
  assert (Hp0 : 0 <= pos) by (subst pos; nra).
  assert (Hp1 : pos <= inject_Z (Z.of_nat (length a) - 1))
    by (subst pos; nra).
  destruct (position_indices a pos Hp0 Hp1) as [Hi Hj].
  destruct (interpolate_at_bounds a (sorted_values xs) pos Hp0 Hp1)
    as [L U].
  exists (nth (Z.to_nat (Qfloor pos)) a 0),
         (nth (Z.to_nat (Qceiling pos)) a 0).
  repeat split; try assumption; apply sorted_values_In; fold a; lia.
Qed.

Lemma spec_percentile_mono (p1 p2 : Q) (xs : list Q) :
  xs <> [] -> 0 <= p1 -> p1 <= p2 -> p2 <= 1 ->
  spec_percentile p1 xs <= spec_percentile p2 xs.
Proof.
  intros Hxs H0 H12 H2. rewrite !spec_percentile_interpolate.
  set (a := stable_sort Qle_bool xs).
  assert (Hm : (0 <= Z.of_nat (length a) - 1)%Z).
  { subst a. rewrite stable_sort_length.
    assert (0 < length xs)%nat; [|lia].
    destruct xs; [contradiction | cbn [length]; lia]. }
  assert (Hq : 0 <= inject_Z (Z.of_nat (length a) - 1)).
  { change 0 with (inject_Z 0). now rewrite <- Zle_Qle. }
  apply (interpolate_at_mono a (sorted_values xs)); nra.
Qed.

(** The throughput statistics of a non-empty distribution are ordered:
    0 <= min <= median <= p95 <= max. *)
Theorem throughput_statistics_ordered (df : EventLog) (k : KPIs) :
  case_durations df <> [] ->
  compute_kpis df = Ok k ->
  exists median lo hi p95,
    th_median (throughput_hours k) = PyFloat (Fin median)
    /\ th_min (throughput_hours k) = PyFloat (Fin lo)
    /\ th_max (throughput_hours k) = PyFloat (Fin hi)
    /\ th_p95 (throughput_hours k) = PyFloat (Fin p95)
    /\ 0 <= lo /\ lo <= median /\ median <= p95 /\ p95 <= hi.
Proof.
  intros Hne Hk.
  destruct (compute_kpis_fields _ _ Hk) as [_ [_ [_ [_ Hth]]]].
  rewrite Hth. cbv zeta. cbn [th_median th_min th_max th_p95].
  unfold series_median, series_min, series_max, series_quantile.
  fold (case_durations df).
  pose proof (case_durations_nonneg df) as Hpos.
  destruct (case_durations df) as [|x t] eqn:E; [contradiction|].
  destruct (fold_left_Qmin_spec t x) as [Hlo_in Hlo].
  destruct (fold_left_Qmax_spec t x) as [Hhi_in Hhi].
  cbv zeta in Hlo_in, Hlo, Hhi_in, Hhi.
  set (lo := fold_left Qmin_b t x) in *.
  set (hi := fold_left Qmax_b t x) in *.
  pose proof (median_of_spec (x :: t) Hne) as Hmed.
  assert (H95 : 95 # 100 <= 1) by (unfold Qle; simpl; lia).
  assert (H50 : 0 <= 1 # 2) by (unfold Qle; simpl; lia).
  assert (H5095 : 1 # 2 <= 95 # 100) by (unfold Qle; simpl; lia).
  pose proof (percentile_linear_spec (95 # 100) (x :: t) Hne H95) as Hp95.
  destruct (spec_percentile_between (1 # 2) (x :: t) Hne H50
              (Qle_trans _ _ _ H5095 H95)) as [u [_ [Hu [_ [Lu _]]]]].
  destruct (spec_percentile_between (95 # 100) (x :: t) Hne
              (Qle_trans _ _ _ H50 H5095) H95) as [_ [v [_ [Hv [_ Uv]]]]].
  pose proof (spec_percentile_mono (1 # 2) (95 # 100) (x :: t) Hne
                H50 H5095 H95) as Hmono.
  exists (median_of (x :: t)), lo, hi,
         (percentile_linear (95 # 100) (x :: t)).
  do 4 (split; [reflexivity|]).
  split; [apply Hpos, Hlo_in|].
  split; [rewrite Hmed; eapply Qle_trans; [apply Hlo, Hu | exact Lu]|].
  split; [rewrite Hmed, Hp95; exact Hmono|].
  rewrite Hp95. eapply Qle_trans; [exact Uv | apply Hhi, Hv].
Qed.

Lemma throughput_statistics_ordered_witness :
  exists median lo hi p95,
    th_median (throughput_hours sample_kpis) = PyFloat (Fin median)
    /\ th_min (throughput_hours sample_kpis) = PyFloat (Fin lo)
    /\ th_max (throughput_hours sample_kpis) = PyFloat (Fin hi)
    /\ th_p95 (throughput_hours sample_kpis) = PyFloat (Fin p95)
    /\ 0 <= lo /\ lo <= median /\ median <= p95 /\ p95 <= hi.
Proof.
  apply (throughput_statistics_ordered sample_log sample_kpis).
  - discriminate.
  - reflexivity.
Defined.

(** ** Row order and the sort of line 67 *)

(** Two sorted lists with the same elements are equal when the order
    separates distinct elements. *)
Lemma sorted_perm_unique (A : Type) (R : A -> A -> Prop) (l1 l2 : list A) :
  (forall x y, In x l1 -> In y l1 -> R x y -> R y x -> x = y) ->
  StronglySorted R l1 -> StronglySorted R l2 -> Permutation l1 l2 ->
  l1 = l2.
Proof.
  revert l2. induction l1 as [|x t1 IH]; intros l2 Hanti S1 S2 HP.
  - apply Permutation_nil in HP. now subst.
  - destruct l2 as [|y t2];
      [apply Permutation_sym, Permutation_nil in HP; discriminate|].
    apply StronglySorted_inv in S1. destruct S1 as [S1 Hx].
    apply StronglySorted_inv in S2. destruct S2 as [S2 Hy].
    rewrite Forall_forall in Hx, Hy.
    assert (E : x = y).
    { assert (Hxin : In x (y :: t2))
        by (eapply Permutation_in; [exact HP | now left]).
      assert (Hyin : In y (x :: t1))
        by (eapply Permutation_in; [apply Permutation_sym, HP | now left]).
      destruct Hxin as [E|Hxin]; [now symmetry|].
      destruct Hyin as [E|Hyin]; [exact E|].
      apply Hanti; [now left | now right | now apply Hx | now apply Hy]. }
    subst y. f_equal. apply IH; try assumption.
    + intros a b Ha Hb. apply Hanti; now right.
    + eapply Permutation_cons_inv. exact HP.
Qed.

Lemma NoDup_map_inj_on (A B : Type) (f : A -> B) (l : list A) (x y : A) :
  NoDup (map f l) -> In x l -> In y l -> f x = f y -> x = y.
Proof.
  induction l as [|a l IH]; intros Hnd Hx Hy E; [destruct Hx|].
  simpl in Hnd. apply NoDup_cons_iff in Hnd. destruct Hnd as [Ha Hnd].
  destruct Hx as [->|Hx], Hy as [->|Hy].
  - reflexivity.
  - exfalso. apply Ha. rewrite E. now apply in_map.
  - exfalso. apply Ha. rewrite <- E. now apply in_map.
  - now apply IH.
Qed.

Lemma row_leb_antisym_key (a b : Row (option Z)) :
  key_leb ts_leb a b = true -> key_leb ts_leb b a = true ->
  row_key a = row_key b.
Proof.
  unfold key_leb, row_key.
  rewrite (String.compare_antisym (case_concept_name a) (case_concept_name b)).
  destruct (String.compare (case_concept_name b) (case_concept_name a))
    eqn:E; simpl; try discriminate.
  apply String_as_OT.cmp_eq in E. intros H1 H2.
  f_equal; [now symmetry | now apply ts_leb_antisym].
Qed.


(** When no two rows share both case id and timestamp, the sort of line 67
    gives the same frame for every order of the rows. *)
Theorem sort_values_case_time_row_order (df1 df2 : list (Row (option Z))) :
  Permutation df1 df2 ->
  NoDup (map row_key df1) ->
  sort_values_case_time df1 = sort_values_case_time df2.
Proof.
  intros HP Hnd.
  assert (HP1 : Permutation df1 (sort_values_case_time df1))
    by apply stable_sort_perm.
  apply (sorted_perm_unique _ (fun a b => key_leb ts_leb a b = true)).
  - intros a b Ha Hb Hab Hba.
    apply (NoDup_map_inj_on _ _ row_key df1); try assumption.
    + eapply Permutation_in; [apply Permutation_sym, HP1 | exact Ha].
    + eapply Permutation_in; [apply Permutation_sym, HP1 | exact Hb].
    + now apply row_leb_antisym_key.
  - apply sort_values_case_time_sorted.
  - apply sort_values_case_time_sorted.
  - eapply perm_trans; [apply Permutation_sym, HP1|].
    eapply perm_trans; [exact HP | apply stable_sort_perm].
Qed.

Lemma sort_values_case_time_row_order_witness :
  sort_values_case_time
    (parse_column sample_to_datetime (map loc_required sample_raw))
  = sort_values_case_time
      (rev (parse_column sample_to_datetime (map loc_required sample_raw))).
Proof.
  apply (sort_values_case_time_row_order
           (parse_column sample_to_datetime (map loc_required sample_raw))
           (rev (parse_column sample_to_datetime
                   (map loc_required sample_raw)))).
  - apply Permutation_rev.
  - repeat constructor; simpl; intuition discriminate.
Defined.

(** ** Each case is sorted on its own *)

Section FilterSort.

Variable A : Type.
Variable leb : A -> A -> bool.
Variable p : A -> bool.
Hypothesis leb_total : forall x y, leb x y = true \/ leb y x = true.
Hypothesis leb_trans :
  forall x y z, leb x y = true -> leb y z = true -> leb x z = true.

Lemma insert_by_below (x : A) (l : list A) :
  Forall (fun y => leb x y = true) l -> insert_by leb x l = x :: l.
Proof.
  intros H. destruct H as [|y l Hy _]; simpl; [reflexivity|].
  now rewrite Hy.
Qed.

Lemma insert_by_filter_sorted (x : A) (s : list A) :
  StronglySorted (fun a b => leb a b = true) s ->
  filter p (insert_by leb x s)
  = if p x then insert_by leb x (filter p s) else filter p s.
Proof.
  induction 1 as [|y s Hs IH Hy]; simpl.
  - destruct (p x); reflexivity.
  - destruct (leb x y) eqn:Hxy.
    + simpl. destruct (p x) eqn:Hpx; [|reflexivity].
      symmetry. apply insert_by_below.
      assert (Hall : Forall (fun z => leb x z = true) (y :: s)).
      { constructor; [exact Hxy|].
        eapply Forall_impl; [|exact Hy]. intros z Hz.
        now apply (leb_trans x y z). }
      change (if p y then y :: filter p s else filter p s)
        with (filter p (y :: s)).
      apply Forall_forall. intros z Hz. apply filter_In in Hz.
      rewrite Forall_forall in Hall. now apply Hall.
    + simpl. rewrite IH.
      destruct (p x), (p y); simpl; try reflexivity. now rewrite Hxy.
Qed.

(** Selecting rows commutes with the stable sort. *)
Lemma stable_sort_filter_commute (l : list A) :
  filter p (stable_sort leb l) = stable_sort leb (filter p l).
Proof.
  induction l as [|x t IH]; simpl; [reflexivity|].
  rewrite insert_by_filter_sorted
    by (apply stable_sort_strongly_sorted; assumption).
  rewrite IH. destruct (p x); reflexivity.
Qed.

End FilterSort.

(** After the sort of line 67 the rows of a case are the sort of that case's
    own rows, so two frames that agree on the rows of a case give that case
    the same sequence of rows, whatever other cases they hold. *)
Theorem sort_values_case_time_case_locality
  (df1 df2 : list (Row (option Z))) (c : string) :
  case_rows df1 c = case_rows df2 c ->
  case_rows (sort_values_case_time df1) c
  = sort_values_case_time (case_rows df1 c)
  /\ case_rows (sort_values_case_time df1) c
     = case_rows (sort_values_case_time df2) c.
Proof.
  intros E. unfold case_rows, sort_values_case_time in *.
  rewrite !(stable_sort_filter_commute _ (key_leb ts_leb) _
              row_leb_total row_leb_trans).
  split; [reflexivity | f_equal; exact E].
Qed.

Lemma sort_values_case_time_case_locality_witness :
  case_rows
    (sort_values_case_time
       (parse_column sample_to_datetime (map loc_required sample_raw))) "B"
  = sort_values_case_time
      (case_rows
         (parse_column sample_to_datetime (map loc_required sample_raw)) "B")
  /\ case_rows
       (sort_values_case_time
          (parse_column sample_to_datetime (map loc_required sample_raw)))
       "B"
     = case_rows
         (sort_values_case_time
            [ mkRow "C" "ship" (Some 1704103200000000000%Z);
              mkRow "B" "order" (Some 1704099600000000000%Z);
              mkRow "B" "close" (Some 1704101400000000000%Z) ]%string) "B".
Proof.
  apply (sort_values_case_time_case_locality
           (parse_column sample_to_datetime (map loc_required sample_raw))
           [ mkRow "C" "ship" (Some 1704103200000000000%Z);
             mkRow "B" "order" (Some 1704099600000000000%Z);
             mkRow "B" "close" (Some 1704101400000000000%Z) ]%string
           "B").
  reflexivity.
Defined.

(** ** More on the edge table *)

Lemma dfg_to_edges_df_cons (kv : (string * string) * Z)
  (d : list ((string * string) * Z)) :
  dfg_to_edges_df (kv :: d)
  = Ok (mkFrame ["source"; "target"; "frequency"]%string
          (stable_sort frequency_desc (dict_rows (kv :: d)))).
Proof. reflexivity. Qed.

Lemma Ok_inj (A : Type) (a b : A) : Ok a = Ok b -> a = b.
Proof. intros H. now injection H. Qed.

Lemma edge_table_sorted (d : list ((string * string) * Z)) :
  frequency_descending (stable_sort frequency_desc (dict_rows d)).
Proof.
  unfold frequency_descending.
  eapply StronglySorted_impl;
    [|apply (stable_sort_strongly_sorted _ frequency_desc
               frequency_desc_total frequency_desc_trans)].
  intros a b H. now apply Z.leb_le.
Qed.

Lemma dfg_to_edges_df_Raise_inv (d : list ((string * string) * Z))
  (e : exn) :
  dfg_to_edges_df d = Raise e -> d = [] /\ e = KeyError "frequency".
Proof.
  destruct d as [|kv d].
  - rewrite dfg_to_edges_df_nil. intros H. injection H as <-. now split.
  - rewrite dfg_to_edges_df_cons. discriminate.
Qed.

(** [dfg_to_edges_df] fails on the empty dict and on nothing else, and the
    failure is the [KeyError] for the frequency column; on any other dict it
    returns a three-column table with one row per dict entry. *)
Theorem dfg_to_edges_df_raises_iff_empty (d : list ((string * string) * Z)) :
  ((exists e, dfg_to_edges_df d = Raise e) <-> d = [])
  /\ (forall e, dfg_to_edges_df d = Raise e -> e = KeyError "frequency")
  /\ (forall t, dfg_to_edges_df d = Ok t ->
        columns t = ["source"; "target"; "frequency"]%string
        /\ length (edge_rows t) = length d).
Proof.
  destruct d as [|kv d].
  - rewrite dfg_to_edges_df_nil. split; [|split].
    + split; [reflexivity | intros _; eexists; reflexivity].
    + intros e H. now injection H as <-.
    + intros t H. discriminate H.
  - rewrite dfg_to_edges_df_cons. split; [|split].
    + split; [intros [e H]; discriminate H | discriminate].
    + intros e H. discriminate H.
    + intros t H. apply Ok_inj in H. subst t. cbn [columns edge_rows].
      split; [reflexivity|].
      rewrite stable_sort_length. unfold dict_rows. apply length_map.
Qed.

(** The first [n] rows of the edge table, which the summary shows for
    [n = 10], are the most frequent edges: they are in descending order of
    frequency and no row left out has a higher frequency than a row shown. *)
Theorem edge_table_head_most_frequent
  (d : list ((string * string) * Z)) (t : EdgeFrame) (n : nat) :
  dfg_to_edges_df d = Ok t ->
  columns (head n t) = columns t
  /\ length (edge_rows (head n t)) = Nat.min n (length d)
  /\ frequency_descending (edge_rows (head n t))
  /\ (forall r r', In r (edge_rows (head n t)) -> In r' (edge_rows t) ->
        ~ In r' (edge_rows (head n t)) ->
        (frequency r' <= frequency r)%Z).
Proof.
  intros H. destruct d as [|kv d];
    [rewrite dfg_to_edges_df_nil in H; discriminate H|].
  rewrite dfg_to_edges_df_cons in H. apply Ok_inj in H. subst t.
  unfold head. cbn [columns edge_rows].
  set (rows := stable_sort frequency_desc (dict_rows (kv :: d))).
  pose proof (edge_table_sorted (kv :: d)) as Hs. fold rows in Hs.
  pose proof (firstn_skipn n rows) as Hsplit.
  unfold frequency_descending in *. rewrite <- Hsplit in Hs.
  split; [reflexivity|]. split; [|split].
  - rewrite length_firstn. subst rows. rewrite stable_sort_length.
    unfold dict_rows. now rewrite length_map.
  - eapply StronglySorted_app_l. exact Hs.
  - intros r r' Hr Hr' Hnot. rewrite <- Hsplit in Hr'.
    apply in_app_or in Hr'. destruct Hr' as [Hr'|Hr']; [contradiction|].
    apply (StronglySorted_app_le _ _ _ _ Hs r r' Hr Hr').
Qed.

Lemma edge_table_head_most_frequent_witness :
  columns (head 2 sample_edges) = columns sample_edges
  /\ length (edge_rows (head 2 sample_edges))
     = Nat.min 2 (length (dfg (discover_dfg sample_log)))
  /\ frequency_descending (edge_rows (head 2 sample_edges))
  /\ (forall r r', In r (edge_rows (head 2 sample_edges)) ->
        In r' (edge_rows sample_edges) ->
        ~ In r' (edge_rows (head 2 sample_edges)) ->
        (frequency r' <= frequency r)%Z).
Proof.
  apply (edge_table_head_most_frequent (dfg (discover_dfg sample_log))
           sample_edges 2).
  reflexivity.
Defined.

(** ** [load_csv] *)

Lemma has_column_In (df : CsvFrame) (c : string) :
  has_column df c = true <-> In c (csv_columns df).
Proof.
  unfold has_column. rewrite existsb_exists. split.
  - intros [x [Hx E]]. apply String.eqb_eq in E. now subst.
  - intros H. exists c. split; [exact H | apply String.eqb_refl].
Qed.

Lemma missing_columns_In (df : CsvFrame) (c : string) :
  In c (missing_columns df)
  <-> In c REQUIRED_RAW_COLS /\ ~ In c (csv_columns df).
Proof.
  unfold missing_columns. rewrite filter_In, negb_true_iff.
  rewrite <- has_column_In. destruct (has_column df c); intuition congruence.
Qed.

Lemma missing_columns_nil (df : CsvFrame) :
  missing_columns df = []
  <-> forall c, In c REQUIRED_RAW_COLS -> In c (csv_columns df).
Proof.
  split.
  - intros E c Hc. apply has_column_In.
    destruct (has_column df c) eqn:H; [reflexivity|].
    assert (Hin : In c (missing_columns df)).
    { apply missing_columns_In. split; [exact Hc|].
      rewrite <- has_column_In. congruence. }
    rewrite E in Hin. destruct Hin.
  - intros H. destruct (missing_columns df) as [|c l] eqn:E; [reflexivity|].
    assert (Hin : In c (missing_columns df)) by (rewrite E; now left).
    apply missing_columns_In in Hin. destruct Hin as [Hc Hn].
    now destruct (Hn (H c Hc)).
Qed.

Lemma string_leb_trans (a b c : string) :
  String.leb a b = true -> String.leb b c = true -> String.leb a c = true.
Proof.
  unfold String.leb.
  destruct (String.compare a b) eqn:E1; try discriminate;
  destruct (String.compare b c) eqn:E2; try discriminate; intros _ _.
  - apply String_as_OT.cmp_eq in E1. subst. now rewrite E2.
  - apply String_as_OT.cmp_eq in E1. subst. now rewrite E2.
  - apply String_as_OT.cmp_eq in E2. subst. now rewrite E1.
  - now rewrite (string_compare_lt_trans _ _ _ E1 E2).
Qed.

(** [load_csv] returns the frame it read, untouched, exactly when the file
    is a table with all three required columns; a table that lacks some is
    rejected with the list of exactly the missing required columns, sorted
    and without repetition; other columns are never an obstacle. *)
Theorem load_csv_outcome (fs : string -> file_state) (path : string) :
  (forall df, load_csv fs path = Done df
     <-> fs path = Table df
         /\ forall c, In c REQUIRED_RAW_COLS -> In c (csv_columns df))
  /\ (forall missing,
        load_csv fs path = Failed (ValueError_missing_columns missing) ->
        exists df, fs path = Table df
          /\ missing <> []
          /\ (forall c, In c missing
                <-> In c REQUIRED_RAW_COLS /\ ~ In c (csv_columns df))
          /\ NoDup missing
          /\ StronglySorted (fun a b => String.leb a b = true) missing)
  /\ (load_csv fs path = Failed (FileNotFoundError path)
      <-> fs path = Missing).
Proof.
  unfold load_csv. destruct (fs path) as [|msg|df0] eqn:F.
  - split; [|split].
    + intros df. split; [discriminate | intros [H _]; discriminate H].
    + intros missing H. discriminate H.
    + split; reflexivity.
  - split; [|split].
    + intros df. split; [discriminate | intros [H _]; discriminate H].
    + intros missing H. discriminate H.
    + split; discriminate.
  - destruct (missing_columns df0) as [|c l] eqn:M.
    + split; [|split].
      * intros df. split.
        -- intros H. injection H as <-. split; [reflexivity|].
           now apply missing_columns_nil.
        -- intros [H _]. now injection H as ->.
      * intros missing H. discriminate H.
      * split; discriminate.
    + split; [|split].
      * intros df. split; [discriminate|].
        intros [H Hall]. injection H as <-.
        apply missing_columns_nil in Hall. congruence.
      * intros missing H.
        assert (Hm : missing = stable_sort String.leb (c :: l))
          by congruence.
        clear H. subst missing. exists df0.
        split; [reflexivity|]. rewrite <- M.
        assert (HP : Permutation (missing_columns df0)
                       (stable_sort String.leb (missing_columns df0)))
          by apply stable_sort_perm.
        split; [|split; [|split]].
        -- intros E. apply stable_sort_nil_inv in E. congruence.
        -- intros c'. rewrite <- missing_columns_In. split; intros Hc.
           ++ eapply Permutation_in; [apply Permutation_sym, HP | exact Hc].
           ++ eapply Permutation_in; [exact HP | exact Hc].
        -- eapply Permutation_NoDup; [exact HP|].
           unfold missing_columns. apply NoDup_filter.
           repeat constructor; simpl; intuition discriminate.
        -- apply stable_sort_strongly_sorted.
           ++ exact String.leb_total.
           ++ exact string_leb_trans.
      * split; discriminate.
Qed.

(** The spec's schema failure on a concrete file. *)
Example load_csv_short :
  load_csv sample_fs "short.csv"
  = Failed (ValueError_missing_columns ["activity_name"; "timestamp"]%string).
Proof. reflexivity. Qed.

Lemma frame_rows_length (df : CsvFrame) :
  length (frame_rows df) = length (csv_records df).
Proof. unfold frame_rows. apply length_map. Qed.

Lemma load_csv_Done_inv (fs : string -> file_state) (path : string)
  (df : CsvFrame) :
  load_csv fs path = Done df ->
  fs path = Table df /\ missing_columns df = [].
Proof.
  unfold load_csv. destruct (fs path) as [|msg|df0]; try discriminate.
  destruct (missing_columns df0) eqn:M; [|discriminate].
  intros H. injection H as <-. split; [reflexivity | exact M].
Qed.

Lemma load_csv_Failed_inv (fs : string -> file_state) (path : string)
  (e : io_exn) :
  load_csv fs path = Failed e ->
  e = FileNotFoundError path
  \/ (exists msg, e = ReadError msg)
  \/ (exists missing, e = ValueError_missing_columns missing).
Proof.
  unfold load_csv. destruct (fs path) as [|msg|df0].
  - intros H. injection H as <-. now left.
  - intros H. injection H as <-. right. left. now exists msg.
  - destruct (missing_columns df0); [discriminate|].
    intros H. right. right. eexists. injection H as <-. reflexivity.
Qed.

Lemma prepare_event_log_frame_complete
  (to_datetime : string -> option Z) (df : CsvFrame) :
  missing_columns df = [] ->
  (exists log, prepare_event_log_frame to_datetime df = Done log)
  \/ (exists n, prepare_event_log_frame to_datetime df
                = Failed (Core (ValueError_invalid_timestamps n))
                /\ (0 < n <= Z.of_nat (length (csv_records df)))%Z).
Proof.
  intros M. unfold prepare_event_log_frame. rewrite M.
  rewrite prepare_event_log_eq.
  destruct (existsb _ _) eqn:E.
  - right. eexists. split; [reflexivity|].
    unfold count_na. rewrite parsed_isna_filter. split.
    + destruct (unparseable to_datetime (frame_rows df)) eqn:U;
        [|simpl; lia].
      apply unparseable_nil_iff in U. congruence.
    + unfold unparseable. rewrite <- frame_rows_length.
      pose proof (filter_length_le
        (fun r => isna (to_datetime (timestamp r))) (frame_rows df)). lia.
  - left. eexists. reflexivity.
Qed.

(** A frame that [load_csv] accepted cannot fail the column selection of
    [prepare_event_log]: preparing it either yields a log or fails with the
    invalid-timestamp error, whose count is at least 1 and at most the
    number of records, and with nothing else. *)
Theorem load_csv_then_prepare
  (fs : string -> file_state) (to_datetime : string -> option Z)
  (path : string) (df : CsvFrame) :
  load_csv fs path = Done df ->
  (exists log, prepare_event_log_frame to_datetime df = Done log)
  \/ (exists n, prepare_event_log_frame to_datetime df
                = Failed (Core (ValueError_invalid_timestamps n))
                /\ (0 < n <= Z.of_nat (length (csv_records df)))%Z).
Proof.
  intros H. apply load_csv_Done_inv in H. destruct H as [_ M].
  exact (prepare_event_log_frame_complete to_datetime df M).
Qed.

Lemma load_csv_then_prepare_witness :
  (exists log, prepare_event_log_frame sample_to_datetime sample_csv
               = Done log)
  \/ (exists n, prepare_event_log_frame sample_to_datetime sample_csv
                = Failed (Core (ValueError_invalid_timestamps n))
                /\ (0 < n <= Z.of_nat (length (csv_records sample_csv)))%Z).
Proof.
  apply (load_csv_then_prepare sample_fs sample_to_datetime "log.csv").
  reflexivity.
Defined.

(** Given directly a frame that lacks a required column,
    [prepare_event_log] fails at the column selection. *)
Example prepare_event_log_frame_short :
  prepare_event_log_frame sample_to_datetime short_csv
  = Failed (KeyError_not_in_index ["activity_name"; "timestamp"]%string).
Proof. reflexivity. Qed.

(** The rows of the sample frame are the sample table plus its extra
    column. *)
Example frame_rows_sample :
  map loc_required (frame_rows sample_csv) = map loc_required sample_raw.
Proof. reflexivity. Qed.

(** ** [export_outputs] *)

Lemma export_outputs_floats
  (R : Renderers) (outdir : string) (k : KPIs) (edges_df : EdgeFrame)
  (m md lo hi p : pyfloat) :
  throughput_hours k
  = mkThroughput (PyFloat m) (PyFloat md) (PyFloat lo) (PyFloat hi)
      (PyFloat p) ->
  exists content,
    export_outputs R outdir k edges_df
    = ([ Mkdir outdir;
         WriteText (path_join outdir "kpis.json") (json_dumps R k);
         WriteText (path_join outdir "dfg_edges.csv") (to_csv R edges_df);
         WriteText (path_join outdir "summary.md") content;
         LogInfo "Exported outputs to: %s" [outdir] ],
       Done tt).
Proof.
  intros Hth. unfold export_outputs. rewrite Hth. eexists. reflexivity.
Qed.

Lemma compute_kpis_throughput_floats (df : EventLog) (k : KPIs) :
  compute_kpis df = Ok k ->
  exists m md lo hi p,
    throughput_hours k
    = mkThroughput (PyFloat m) (PyFloat md) (PyFloat lo) (PyFloat hi)
        (PyFloat p).
Proof.
  intros Hk. destruct (compute_kpis_fields _ _ Hk) as [_ [_ [_ [_ Hth]]]].
  cbv zeta in Hth. rewrite Hth. do 5 eexists. reflexivity.
Qed.

(** On the KPIs that [compute_kpis] returned, for any log, the summary
    formatting of [export_outputs] cannot raise [TypeError]: all five
    throughput statistics are floats, never [None]. *)
Theorem export_outputs_no_type_error
  (R : Renderers) (outdir : string) (df : EventLog) (k : KPIs)
  (edges_df : EdgeFrame) :
  compute_kpis df = Ok k ->
  (exists m md lo hi p,
     throughput_hours k
     = mkThroughput (PyFloat m) (PyFloat md) (PyFloat lo) (PyFloat hi)
         (PyFloat p))
  /\ outcome_of (export_outputs R outdir k edges_df)
     <> Failed TypeError_format.
Proof.
  intros Hk.
  destruct (compute_kpis_throughput_floats _ _ Hk)
    as [m [md [lo [hi [p Hth]]]]].
  split; [now exists m, md, lo, hi, p|].
  destruct (export_outputs_floats R outdir k edges_df _ _ _ _ _ Hth)
    as [content ->].
  discriminate.
Qed.

Lemma export_outputs_no_type_error_witness :
  (exists m md lo hi p,
     throughput_hours sample_kpis
     = mkThroughput (PyFloat m) (PyFloat md) (PyFloat lo) (PyFloat hi)
         (PyFloat p))
  /\ outcome_of (export_outputs sample_renderers "outputs" sample_kpis
                   sample_edges)
     <> Failed TypeError_format.
Proof.
  apply (export_outputs_no_type_error sample_renderers "outputs"
           sample_log sample_kpis sample_edges).
  reflexivity.
Defined.

(** Given KPIs in which a throughput statistic is [None], [export_outputs]
    raises [TypeError] while building the summary: kpis.json and
    dfg_edges.csv have been written by then, summary.md has not. *)
Theorem export_outputs_none_statistic
  (R : Renderers) (outdir : string) (k : KPIs) (edges_df : EdgeFrame) :
  th_mean (throughput_hours k) = PyNone
  \/ th_median (throughput_hours k) = PyNone
  \/ th_p95 (throughput_hours k) = PyNone
  \/ th_min (throughput_hours k) = PyNone
  \/ th_max (throughput_hours k) = PyNone ->
  export_outputs R outdir k edges_df
  = ([ Mkdir outdir;
       WriteText (path_join outdir "kpis.json") (json_dumps R k);
       WriteText (path_join outdir "dfg_edges.csv") (to_csv R edges_df) ],
     Failed TypeError_format).
Proof.
  intros H. unfold export_outputs.
  destruct (throughput_hours k) as [m md lo hi p]. cbn [th_mean th_median
    th_min th_max th_p95] in *.
  destruct m, md, p, lo, hi; try reflexivity;
    exfalso; intuition discriminate.
Qed.

Lemma export_outputs_none_statistic_witness :
  export_outputs sample_renderers "outputs"
    (mkKPIs 0 0 0 PyNone None None
       (mkThroughput (PyFloat NaN) PyNone (PyFloat NaN) (PyFloat NaN)
          (PyFloat NaN)) [])
    (mkFrame [] [])
  = ([ Mkdir "outputs";
       WriteText (path_join "outputs" "kpis.json")
         (json_dumps sample_renderers
            (mkKPIs 0 0 0 PyNone None None
               (mkThroughput (PyFloat NaN) PyNone (PyFloat NaN)
                  (PyFloat NaN) (PyFloat NaN)) []));
       WriteText (path_join "outputs" "dfg_edges.csv")
         (to_csv sample_renderers (mkFrame [] [])) ],
     Failed TypeError_format).
Proof.
  apply (export_outputs_none_statistic sample_renderers "outputs").
  right. left. reflexivity.
Defined.

(** ** The script's [main] *)

Lemma maybe_view_dfg_done (df : EventLog) (no_view : bool) :
  snd (maybe_view_dfg df no_view) = Done tt
  /\ views (fst (maybe_view_dfg df no_view))
     = (if no_view then [] else [discover_dfg df])
  /\ written_paths (fst (maybe_view_dfg df no_view)) = [].
Proof. destruct no_view; repeat split. Qed.

Ltac io_step := cbn -[export_outputs maybe_view_dfg].

(** The four ways a run of [main] can go. *)
Lemma main_effects_cases (R : Renderers) (fs : string -> file_state)
  (to_datetime : string -> option Z) (args : Args) :
  let m := main_effects R fs to_datetime args in
  let pre := [ BasicConfig (arg_loglevel args);
               LogInfo "Loading input: %s" [arg_input args] ] in
  (exists e, load_csv fs (arg_input args) = Failed e
             /\ m = (pre, Failed e))
  \/ (exists df e,
        load_csv fs (arg_input args) = Done df
        /\ prepare_event_log_frame to_datetime df = Failed e
        /\ m = (pre ++ [LogInfo "Preparing event log for pm4py..." []],
                Failed e))
  \/ (exists df log e,
        load_csv fs (arg_input args) = Done df
        /\ prepare_event_log_frame to_datetime df = Done log
        /\ dfg_to_edges_df (dfg (discover_dfg log)) = Raise e
        /\ m = (pre ++ [ LogInfo "Preparing event log for pm4py..." [];
                         LogInfo "Computing KPIs..." [];
                         LogInfo "Discovering DFG..." [] ],
                Failed (Core e)))
  \/ (exists df log k t content,
        load_csv fs (arg_input args) = Done df
        /\ prepare_event_log_frame to_datetime df = Done log
        /\ compute_kpis log = Ok k
        /\ dfg_to_edges_df (dfg (discover_dfg log)) = Ok t
        /\ m = (pre
                ++ [ LogInfo "Preparing event log for pm4py..." [];
                     LogInfo "Computing KPIs..." [];
                     LogInfo "Discovering DFG..." [];
                     LogInfo "Exporting outputs..." [];
                     Mkdir (arg_outdir args);
                     WriteText (path_join (arg_outdir args) "kpis.json")
                               (json_dumps R k);
                     WriteText (path_join (arg_outdir args) "dfg_edges.csv")
                               (to_csv R t);
                     WriteText (path_join (arg_outdir args) "summary.md")
                               content;
                     LogInfo "Exported outputs to: %s" [arg_outdir args] ]
                ++ fst (maybe_view_dfg log (arg_no_view args))
                ++ [LogInfo "Done." []],
                Done 0%Z)).
Proof.
  cbv zeta. unfold main_effects.
  destruct (load_csv fs (arg_input args)) as [df|e] eqn:L.
  2:{ left. exists e. split; reflexivity. }
  right.
  destruct (prepare_event_log_frame to_datetime df) as [log|e] eqn:P.
  2:{ left. exists df, e. split; [reflexivity|]. split; [exact P|].
      io_step. rewrite P. reflexivity. }
  right.
  destruct (compute_kpis_total log) as [k Hk].
  destruct (dfg_to_edges_df (dfg (discover_dfg log))) as [t|e] eqn:D.
  2:{ left. exists df, log, e. split; [reflexivity|]. split; [exact P|].
      split; [exact D|].
      io_step. rewrite P. io_step. rewrite Hk. io_step. rewrite D.
      reflexivity. }
  right.
  destruct (compute_kpis_throughput_floats _ _ Hk)
    as [m [md [lo [hi [p Hth]]]]].
  destruct (export_outputs_floats R (arg_outdir args) k t _ _ _ _ _ Hth)
    as [content Hex].
  exists df, log, k, t, content.
  split; [reflexivity|]. split; [exact P|]. split; [exact Hk|].
  split; [exact D|].
  io_step. rewrite P. io_step. rewrite Hk. io_step. rewrite D.
  io_step. rewrite Hex. destruct (arg_no_view args); reflexivity.
Qed.

(** Whatever [main] creates, writes or shows, it does after [load_csv],
    [prepare_event_log], [compute_kpis] and [dfg_to_edges_df] have all
    returned: a run that made a directory, wrote a file or opened the viewer
    had a loadable table, a log, KPIs and a non-empty edge dict. *)
Theorem main_effects_outputs_after_pipeline
  (R : Renderers) (fs : string -> file_state)
  (to_datetime : string -> option Z) (args : Args) (e : effect) :
  In e (trace (main_effects R fs to_datetime args)) ->
  is_output e = true ->
  exists df log k t,
    load_csv fs (arg_input args) = Done df
    /\ prepare_event_log_frame to_datetime df = Done log
    /\ compute_kpis log = Ok k
    /\ dfg_to_edges_df (dfg (discover_dfg log)) = Ok t
    /\ dfg (discover_dfg log) <> [].
Proof.
  unfold trace. intros Hin Hout.
  destruct (main_effects_cases R fs to_datetime args)
    as [[e' [L E]]
       |[[df [e' [L [P E]]]]
        |[[df [log [e' [L [P [D E]]]]]]
         |[df [log [k [t [content [L [P [Hk [D E]]]]]]]]]]]];
    rewrite E in Hin; cbn [fst app] in Hin.
  - exfalso. repeat (destruct Hin as [<-|Hin]; [discriminate Hout|]).
    exact Hin.
  - exfalso. repeat (destruct Hin as [<-|Hin]; [discriminate Hout|]).
    exact Hin.
  - exfalso. repeat (destruct Hin as [<-|Hin]; [discriminate Hout|]).
    exact Hin.
  - exists df, log, k, t. repeat split; try assumption.
    intros Hnil. rewrite Hnil, dfg_to_edges_df_nil in D. discriminate D.
Qed.

Lemma main_effects_outputs_after_pipeline_witness :
  exists df log k t,
    load_csv sample_fs (arg_input sample_args) = Done df
    /\ prepare_event_log_frame sample_to_datetime df = Done log
    /\ compute_kpis log = Ok k
    /\ dfg_to_edges_df (dfg (discover_dfg log)) = Ok t
    /\ dfg (discover_dfg log) <> [].
Proof.
  apply (main_effects_outputs_after_pipeline sample_renderers sample_fs
           sample_to_datetime sample_args (Mkdir "outputs")).
  - vm_compute. do 6 right. left. reflexivity.
  - reflexivity.
Defined.

Lemma of_result_Done_inv (A : Type) (r : result A) (a : A) :
  of_result r = Done a -> r = Ok a.
Proof. destruct r; simpl; intros H; [now injection H as -> | discriminate]. Qed.

(** A run of [main] that succeeds returns 0; its output effects are, in
    order, the directory, kpis.json, dfg_edges.csv and summary.md, followed
    by the viewer unless [--no-view] was given; and what it exports is what
    the pipeline computes from the rows of the loaded frame. *)
Theorem main_effects_success
  (R : Renderers) (fs : string -> file_state)
  (to_datetime : string -> option Z) (args : Args) (z : Z) :
  outcome_of (main_effects R fs to_datetime args) = Done z ->
  z = 0%Z
  /\ exists df out content,
       load_csv fs (arg_input args) = Done df
       /\ main to_datetime (frame_rows df) = Ok out
       /\ filter is_output (trace (main_effects R fs to_datetime args))
          = [ Mkdir (arg_outdir args);
              WriteText (path_join (arg_outdir args) "kpis.json")
                        (json_dumps R (out_kpis out));
              WriteText (path_join (arg_outdir args) "dfg_edges.csv")
                        (to_csv R (out_edges out));
              WriteText (path_join (arg_outdir args) "summary.md") content ]
            ++ (if arg_no_view args then [] else [ViewDfg (out_dfg out)]).
Proof.
  unfold outcome_of, trace. intros H.
  destruct (main_effects_cases R fs to_datetime args)
    as [[e' [L E]]
       |[[df [e' [L [P E]]]]
        |[[df [log [e' [L [P [D E]]]]]]
         |[df [log [k [t [content [L [P [Hk [D E]]]]]]]]]]]];
    rewrite E in H |- *; try discriminate H.
  cbn [snd fst] in *. injection H as <-. split; [reflexivity|].
  exists df, (mkOutputs k (discover_dfg log) t), content.
  split; [exact L|]. split.
  - unfold prepare_event_log_frame in P.
    destruct (missing_columns df); [|discriminate P].
    apply of_result_Done_inv in P. unfold main. rewrite P. cbn [bind].
    rewrite Hk. cbn [bind]. rewrite D. reflexivity.
  - cbn [out_kpis out_edges out_dfg].
    destruct (arg_no_view args); reflexivity.
Qed.

Lemma main_effects_success_witness :
  0%Z = 0%Z
  /\ exists df out content,
       load_csv sample_fs (arg_input sample_args) = Done df
       /\ main sample_to_datetime (frame_rows df) = Ok out
       /\ filter is_output
            (trace (main_effects sample_renderers sample_fs
                      sample_to_datetime sample_args))
          = [ Mkdir (arg_outdir sample_args);
              WriteText (path_join (arg_outdir sample_args) "kpis.json")
                        (json_dumps sample_renderers (out_kpis out));
              WriteText (path_join (arg_outdir sample_args) "dfg_edges.csv")
                        (to_csv sample_renderers (out_edges out));
              WriteText (path_join (arg_outdir sample_args) "summary.md")
                        content ]
            ++ (if arg_no_view sample_args then []
                else [ViewDfg (out_dfg out)]).
Proof.
  apply (main_effects_success sample_renderers sample_fs sample_to_datetime
           sample_args 0%Z).
  vm_compute. reflexivity.
Defined.
